(** * ari-client: the event demultiplexer, the operation binding and the
    WebSocket reconnect logic of [lib/client.js], as a shallow embedding.

    The handlers of [Client.prototype.start] and the closures of
    [Client.prototype._attachApi] are written as functions over an explicit
    client state; what they do to the outside world (emitting on the client,
    opening or closing a socket, calling the backoff function, calling the
    user's callback) is returned as a list of actions, and a JavaScript
    exception as the [thrown] field of the outcome. *)

From Stdlib Require Import ZArith.
From stdpp Require Import gmap strings list fin_maps pretty.


(** ** JavaScript values that travel through the client *)

(** A value produced by [JSON.parse]. *)
#[warnings="-register-all"]
Inductive Json :=
| JNull
| JBool (b : bool)
| JNum (n : Z)
| JStr (s : string)
| JArr (items : list Json)
| JObj (fields : list (string * Json)).

Fixpoint assoc (key : string) (fields : list (string * Json)) : option Json :=
  match fields with
  | [] => None
  | (k, v) :: rest => if String.eqb k key then Some v else assoc key rest
  end.

(** [obj[key]] on the own properties of a parsed value; [None] is
    [undefined]. *)
Definition get (obj : Json) (key : string) : option Json :=
  match obj with
  | JObj fields => assoc key fields
  | _ => None
  end.

(** A text together with what [JSON.parse] makes of it: [parsed] is [None]
    when [JSON.parse] throws a [SyntaxError]. *)
Record Text := { text : string; parsed : option Json }.

(** The truth value of a string: only the empty string is falsy. *)
Definition truthy (s : string) : bool :=
  match s with EmptyString => false | String _ _ => true end.

Inductive Exn := SyntaxError | TypeError.

(** ** The schema and the collaborators of [client.js] *)

(** One entry of [eventModel.properties]. *)
Record ModelProperty := { p_name : string; p_dataType : string }.

(** One entry of [self._instanceListeners[eventType]]:
    [{'once': false, 'id': uniqueId, 'callback': callback}]. *)
Record Listener := { l_once : bool; l_id : string; l_callback : nat }.

(** What [client.js] uses of [require('./resources.js')]: the list
    [knownTypes], the factory [_resources[type]] (absent for a type without
    one) applied to the client and a payload, and [instance._id().toString()]
    of the instance it builds. *)
Class ResourcesModule := {
  ResourceInstance : Type;
  knownTypes : list string;
  resourceFactory : string → option (Json → ResourceInstance);
  instanceId : ResourceInstance → string;
  swaggerListTypeRegex : string → option string;
    (* swaggerListTypeRegex.exec(type): the captured element type *)
}.

(** What [client.js] uses of [require('backoff-func')]: [backoff.create] with
    its [delay] option, and the function it returns, which answers whether the
    call was scheduled. *)
Class BackoffModule := {
  Backoff : Type;
  backoff_create : Z → Backoff;
  backoff_call : Backoff → bool * Backoff;
}.

(** The state of a [Client] that the handlers read and write. *)
Record Client := {
  eventModels : gmap string (list ModelProperty);
    (* self._swagger.apis.events.models, each model by its properties *)
  instanceListeners : gmap string (list Listener);
    (* self._instanceListeners *)
  ws : option string;
    (* self._ws, by the URL it was opened with *)
  wsClosed : bool;
    (* self._wsClosed; undefined reads as false *)
}.

Definition set_instanceListeners (t : gmap string (list Listener))
    (self : Client) : Client :=
  {| eventModels := eventModels self; instanceListeners := t;
     ws := ws self; wsClosed := wsClosed self |}.

Definition set_ws (s : option string) (self : Client) : Client :=
  {| eventModels := eventModels self;
     instanceListeners := instanceListeners self;
     ws := s; wsClosed := wsClosed self |}.

Definition set_wsClosed (b : bool) (self : Client) : Client :=
  {| eventModels := eventModels self;
     instanceListeners := instanceListeners self;
     ws := ws self; wsClosed := b |}.

(** ** Values and objects handed to an operation *)

(** An argument of an operation. Objects and arrays are references into a
    heap of field maps, so that a caller's object and a copy of it are told
    apart. *)
Inductive Value :=
| VUndefined
| VNull
| VBool (b : bool)
| VNum (n : Z)
| VStr (s : string)
| VFunction (f : nat)
| VArray (l : nat)
| VObject (l : nat).

Abbreviation Heap := (gmap nat (gmap string Value)).

(** The object or array a value refers to. *)
Definition target (v : Value) : option nat :=
  match v with
  | VArray l | VObject l => Some l
  | _ => None
  end.

(** One entry of [oper.parameters]. *)
Record OperParameter := { param_name : string; paramType : string }.

(** [oper.type] of a swagger operation. *)
Inductive OperType := TUndefined | TNull | TName (type : string).

Record Operation := {
  op_resource : string;
  op_name : string;
  op_type : OperType;
  op_parameters : list OperParameter;
}.

(** What [callSwagger] calls outside [client.js]:
    [_utils.parseBodyParams(params, options)], which returns the options to
    send, and the swagger operation [self._swagger.apis[resource][operation]]
    applied to those options; both may write to the heap. *)
Class OperationModules := {
  parseBodyParams : list OperParameter → Heap → Value → Heap * Value;
  swaggerOperation : string → string → Heap → Value → Heap;
}.

Section ClientJs.
Context `{RM : ResourcesModule} `{BM : BackoffModule} `{OM : OperationModules}.

(** The third argument of [self.emit(event.type, event, resources)]. *)
Inductive Resources :=
| RUndefined
| ROne (instance : ResourceInstance)
| RMany (byName : gmap string ResourceInstance).

Inductive EmitArgs :=
| EventArgs (event : Json) (resources : Resources)
| ErrorArg (err : option string).

(** What a handler does to the outside world. *)
Inductive Action :=
| Emit (name : string) (args : EmitArgs)   (* self.emit(name, ...) *)
| NewWebSocket (url : string)              (* new WebSocket(wsUrl) *)
| WsClose                                  (* self._ws.close() *)
| Retry (scheduled : bool).                (* retry(connect) and its answer *)

Record Outcome := {
  client : Client;
  actions : list Action;
  thrown : option Exn;
}.

Definition throw (self : Client) (e : Exn) : Outcome :=
  {| client := self; actions := []; thrown := Some e |}.

(** ** [processMessage] *)

(** The local variables of [processMessage] that the loop over the model's
    properties updates, with the listener table of the client. *)
Record Dispatch := {
  d_resources : gmap string ResourceInstance;
  d_instanceIds : list string;
  d_listeners : gmap string (list Listener);
}.

(** The condition of the [if] in the loop, with the instance it builds. *)
Definition promote (event : Json) (prop : ModelProperty)
    : option ResourceInstance :=
  if bool_decide (p_dataType prop ∈ knownTypes) then
    match get event (p_name prop) with
    | Some payload =>
        match resourceFactory (p_dataType prop) with
        | Some factory => Some (factory payload)
        | None => None
        end
    | None => None
    end
  else None.

(** The body of [_.each(listeners, function (listener) ...)], on the pair
    [(instanceIds, updatedListeners)]. *)
Definition routeListener (instId : string)
    (acc : list string * list Listener) (listener : Listener)
    : list string * list Listener :=
  if String.eqb (l_id listener) instId then
    (if bool_decide (instId ∈ acc.1) then acc.1 else acc.1 ++ [instId],
     if l_once listener then acc.2 else acc.2 ++ [listener])
  else (acc.1, acc.2 ++ [listener]).

(** The body of [_.each(eventModel.properties, function (prop) ...)]. *)
Definition promoteProperty (type : string) (event : Json)
    (st : Dispatch) (prop : ModelProperty) : Dispatch :=
  match promote event prop with
  | None => st
  | Some instance =>
      let resources := <[p_name prop := instance]> (d_resources st) in
      match d_listeners st !! type with
      | Some listeners =>
          let r := foldl (routeListener (instanceId instance))
                         (d_instanceIds st, []) listeners in
          {| d_resources := resources;
             d_instanceIds := r.1;
             d_listeners := <[type := r.2]> (d_listeners st) |}
      | None =>
          {| d_resources := resources;
             d_instanceIds := d_instanceIds st;
             d_listeners := d_listeners st |}
      end
  end.

(** [resources] as it is passed to [emit], from the number of its keys. *)
Definition resourcesArgument (resources : gmap string ResourceInstance)
    : Resources :=
  let promoted := size resources in
  if Nat.eqb promoted 1 then
    match head (map_to_list resources) with
    | Some (key, _) =>
        match resources !! key with
        | Some instance => ROne instance
        | None => RUndefined
        end
    | None => RUndefined
    end
  else if Nat.eqb promoted 0 then RUndefined
  else RMany resources.

Definition scopedName (type instId : string) : string :=
  type +:+ "-" +:+ instId.

(** The event of a frame: [{}] for a falsy message, [JSON.parse(msg)]
    otherwise. *)
Definition frameEvent (msg : Text) : option Json :=
  if truthy (text msg) then parsed msg else Some (JObj []).

(** [_.find(eventModels, function (item, key) { return key === event.type })]
    with the type it was found under: only a string equals a key. *)
Definition findEventModel (self : Client) (event : Json)
    : option (string * list ModelProperty) :=
  match get event "type" with
  | Some (JStr type) =>
      match eventModels self !! type with
      | Some properties => Some (type, properties)
      | None => None
      end
  | _ => None
  end.

Definition processMessage (self : Client) (msg : Text) : Outcome :=
  match frameEvent msg with
  | None => throw self SyntaxError
  | Some event =>
      match findEventModel self event with
      | None => throw self TypeError  (* eventModel.properties of undefined *)
      | Some (type, properties) =>
          let st := foldl (promoteProperty type event)
                      {| d_resources := ∅; d_instanceIds := [];
                         d_listeners := instanceListeners self |}
                      properties in
          let resources := resourcesArgument (d_resources st) in
          {| client := set_instanceListeners (d_listeners st) self;
             actions :=
               Emit type (EventArgs event resources) ::
               (if Nat.ltb 0 (length (d_instanceIds st)) then
                  (λ instId, Emit (scopedName type instId)
                                  (EventArgs event resources))
                    <$> d_instanceIds st
                else []);
             thrown := None |}
      end
  end.

(** ** [Client.prototype.start] and [Client.prototype.stop] *)

(** The variables of one call of [start], shared by its handlers. *)
Record Session := {
  processingError : bool;
  retry : Backoff;
  wsUrl : string;
}.

Definition set_processingError (b : bool) (s : Session) : Session :=
  {| processingError := b; retry := retry s; wsUrl := wsUrl s |}.

Definition set_retry (r : Backoff) (s : Session) : Session :=
  {| processingError := processingError s; retry := r; wsUrl := wsUrl s |}.

(** The argument of [start]: one application name or an array of them. *)
Inductive Apps := AppName (app : string) | AppList (apps : list string).

Definition applications (apps : Apps) : string :=
  match apps with
  | AppList l => String.concat "," l
  | AppName app => app
  end.

(** [util.format('ws://%s/ari/events?app=%s&api_key=%s:%s', ...)]. *)
Definition formatWsUrl (host : string) (apps : Apps) (user pass : string)
    : string :=
  "ws://" +:+ host +:+ "/ari/events?app=" +:+ applications apps
    +:+ "&api_key=" +:+ user +:+ ":" +:+ pass.

Definition connect (st : Client * Session) : (Client * Session) * list Action :=
  ((set_ws (Some (wsUrl st.2)) st.1, st.2), [NewWebSocket (wsUrl st.2)]).

Definition start (self : Client) (host user pass : string) (apps : Apps)
    : (Client * Session) * list Action :=
  connect (self, {| processingError := false;
                    retry := backoff_create 100;
                    wsUrl := formatWsUrl host apps user pass |}).

Definition processOpen (st : Client * Session)
    : (Client * Session) * list Action :=
  ((st.1, set_processingError false st.2), []).

Definition reconnect (err : option string) (st : Client * Session)
    : (Client * Session) * list Action :=
  let r := backoff_call (retry st.2) in
  ((st.1, set_retry r.2 st.2),
   Retry r.1 ::
   (if r.1 then [] else [Emit "WebSocketMaxRetries" (ErrorArg err)])).

Definition processClose (st : Client * Session)
    : (Client * Session) * list Action :=
  if wsClosed st.1 then ((set_wsClosed false st.1, st.2), [])
  else if negb (processingError st.2) then reconnect None st
  else (st, []).

Definition processError (err : string) (st : Client * Session)
    : (Client * Session) * list Action :=
  if wsClosed st.1 then (st, [])
  else reconnect (Some err) (st.1, set_processingError true st.2).

Definition stop (self : Client) : Outcome :=
  match ws self with
  | Some _ =>
      {| client := set_wsClosed true self; actions := [WsClose];
         thrown := None |}
  | None => throw self TypeError   (* self._ws is undefined *)
  end.

(** What reaches the handlers of one call of [start], and the calls of
    [stop] in between. [OnTimer] is the backoff running [connect]. An
    exception of [processMessage] or [stop] leaves the handler; the client
    stays as the handler left it. *)
Inductive WsEvent :=
| OnMessage (msg : Text)
| OnOpen
| OnClose
| OnError (err : string)
| OnTimer
| CallStop.

Definition handle (st : Client * Session) (ev : WsEvent)
    : (Client * Session) * list Action :=
  match ev with
  | OnMessage msg =>
      let o := processMessage st.1 msg in ((client o, st.2), actions o)
  | OnOpen => processOpen st
  | OnClose => processClose st
  | OnError err => processError err st
  | OnTimer => connect st
  | CallStop => let o := stop st.1 in ((client o, st.2), actions o)
  end.

Fixpoint run (st : Client * Session) (evs : list WsEvent)
    : (Client * Session) * list Action :=
  match evs with
  | [] => (st, [])
  | ev :: rest =>
      let r := handle st ev in
      let r' := run r.1 rest in
      (r'.1, r.2 ++ r'.2)
  end.

(** The calls of the backoff function among some actions. *)
Definition isRetry (a : Action) : bool :=
  match a with Retry _ => true | _ => false end.

Definition retries (acts : list Action) : list Action :=
  List.filter isRetry acts.

(** ** [callSwagger] and its two callbacks *)

Definition isAbsent (v : Value) : bool :=
  match v with VUndefined | VNull => true | _ => false end.

Definition isFunction (v : Value) : bool :=
  match v with VFunction _ => true | _ => false end.

Definition isArray (v : Value) : bool :=
  match v with VArray _ => true | _ => false end.

(** [_.first(args)] and [_.last(args)]. *)
Definition first (args : list Value) : Value := default VUndefined (head args).
Definition last (args : list Value) : Value := default VUndefined (list.last args).

(** [_.clone(options)]: a new object with the fields of an object, the value
    itself when it is not an object. *)
Definition clone (h : Heap) (v : Value) : Heap * Value :=
  match v with
  | VObject l =>
      let l' := fresh (dom h) in
      (<[l' := default ∅ (h !! l)]> h, VObject l')
  | _ => (h, v)
  end.

(** [respType] and [multi] as [attachOperation] computes them. *)
Definition respType (oper : Operation) : OperType * bool :=
  match op_type oper with
  | TName type =>
      match swaggerListTypeRegex type with
      | Some element => (TName element, true)
      | None => (TName type, false)
      end
  | t => (t, false)
  end.

(** What [callSwagger] leaves behind: the heap after the swagger operation
    ran, the options it was given, and the [userCallback] that the two
    callbacks close over. *)
Record Call := {
  c_heap : Heap;
  c_options : Value;
  c_userCallback : Value;
}.

Definition callSwagger (oper : Operation) (h : Heap) (args : list Value)
    : Call :=
  let options := first args in
  let userCallback := last args in
  let prepared :=
    if isAbsent options || isFunction options || isArray options then
      (* options = {} *)
      let l := fresh (dom h) in (<[l := ∅]> h, VObject l)
    else
      let c := clone h options in
      parseBodyParams (op_parameters oper) c.1 c.2 in
  {| c_heap := swaggerOperation (op_resource oper) (op_name oper)
                 prepared.1 prepared.2;
     c_options := prepared.2;
     c_userCallback := userCallback |}.

(** [err.data] or [response.data]: a [Buffer], by the string it decodes to,
    or a string. *)
Inductive Data := DBuffer (decoded : string) | DString (s : string).

Definition dataTruthy (d : Data) : bool :=
  match d with DBuffer _ => true | DString s => truthy s end.

Definition dataToString (d : Data) : string :=
  match d with DBuffer s => s | DString s => s end.

(** What swagger hands to the failure callback. *)
Inductive SwaggerError :=
| ErrAbsent                          (* undefined or null *)
| ErrObject (data : option Data).

(** The first argument of the user's callback. *)
Inductive ErrValue :=
| ENull
| EError (message : string)          (* new Error(message) *)
| EPassed (err : SwaggerError).

(** The second argument of the user's callback. *)
Inductive OpResult :=
| Raw (value : Json)
| One (instance : ResourceInstance)
| Many (instances : list ResourceInstance).

(** A call of the user's callback; [result] is [None] when it is called with
    one argument. *)
Record UserCall := {
  u_callback : nat;
  u_err : ErrValue;
  u_result : option OpResult;
}.

Record Reply := {
  calls : list UserCall;
  raised : option Exn;
}.

Definition swaggerError (userCallback : Value) (err : SwaggerError) : Reply :=
  let err' :=
    match err with
    | ErrObject (Some d) =>
        if dataTruthy d then EError (dataToString d) else EPassed err
    | _ => EPassed err
    end in
  match userCallback with
  | VFunction f =>
      {| calls := [{| u_callback := f; u_err := err'; u_result := None |}];
         raised := None |}
  | _ => {| calls := []; raised := Some TypeError |}
  end.

(** The elements [_.map] visits: those of an array, the values of an
    object, the characters of a string. An object that has a numeric
    [length], which underscore walks by index, is not told apart here. *)
Definition items (j : Json) : list Json :=
  match j with
  | JArr l => l
  | JObj fields => fields.*2
  | JStr s => (λ c, JStr (String c EmptyString)) <$> String.list_ascii_of_string s
  | _ => []
  end.

Definition isKnown (t : OperType) : option (Json → ResourceInstance) :=
  match t with
  | TName type =>
      if bool_decide (type ∈ knownTypes) then resourceFactory type else None
  | _ => None
  end.

(** [response.data] comes with what [JSON.parse] makes of its string. *)
Definition processResponse (oper : Operation) (userCallback : Value)
    (data : Text) : Reply :=
  match userCallback with
  | VFunction f =>
      let deliver result :=
        {| calls := [{| u_callback := f; u_err := ENull;
                        u_result := Some result |}];
           raised := None |} in
      let typed (result : Json) :=
        match isKnown (respType oper).1 with
        | Some factory =>
            if (respType oper).2 then Many (factory <$> items result)
            else One (factory result)
        | None => Raw result
        end in
      if match (respType oper).1 with TNull => false | _ => true end
         && truthy (text data)
      then
        match parsed data with
        | Some result => deliver (typed result)
        | None => {| calls := []; raised := Some SyntaxError |}
        end
      else deliver (typed (JStr (text data)))
  | _ => {| calls := []; raised := None |}
  end.

End ClientJs.

(** ** Notions the statements are phrased in *)

Section Readings.
Context `{RM : ResourcesModule}.

(** The properties of a model that an event promotes, in the model's order,
    each with the instance built for it. *)
Definition promotions (event : Json) (properties : list ModelProperty)
    : list (string * ResourceInstance) :=
  omap (λ prop, (λ i, (p_name prop, i)) <$> promote event prop) properties.

(** The identities of the instances an event promotes. *)
Definition promotedIds (event : Json) (properties : list ModelProperty)
    : list string :=
  (λ ni, instanceId ni.2) <$> promotions event properties.

(** A listener that a promoted instance with identity [x] leaves in the
    table: every listener but the [once] ones registered for [x]. *)
Definition stays (x : string) (l : Listener) : bool :=
  negb (String.eqb (l_id l) x && l_once l).

(** An emission under a given event name. *)
Definition emitsTo (name : string) (a : Action) : bool :=
  match a with
  | Emit n _ => String.eqb n name
  | _ => false
  end.

(** The listeners registered for an event type. *)
Definition listenersOf (self : Client) (type : string) : list Listener :=
  default [] (instanceListeners self !! type).

(** The client after a sequence of frames went through [processMessage],
    whatever each of them did. *)
Definition afterFrames (self : Client) (frames : list Text) : Client :=
  foldl (λ c msg, client (processMessage c msg)) self frames.

(** A frame the handler skips: it returns without an exception. *)
Definition skipped (self : Client) (msg : Text) : Prop :=
  thrown (processMessage self msg) = None.

(** A frame that is not JSON, or whose event has no model: no string under
    [type], or no model of that name. *)
Definition malformed (msg : Text) : Prop := frameEvent msg = None.

Definition unrecognized (self : Client) (msg : Text) : Prop :=
  ∃ event, frameEvent msg = Some event ∧
    ∀ type, get event "type" = Some (JStr type) →
            eventModels self !! type = None.

End Readings.

Section TransportReadings.
Context `{RM : ResourcesModule} `{BM : BackoffModule}.

(** The backoff after [n] calls of it. *)
Definition advance (n : nat) (b : Backoff) : Backoff :=
  Nat.iter n (λ b, (backoff_call b).2) b.

(** What one call of [reconnect] does: the backoff is called, and its
    refusal is announced. *)
Definition reconnectActions (err : option string) (b : Backoff)
    : list Action :=
  Retry (backoff_call b).1 ::
  (if (backoff_call b).1 then []
   else [Emit "WebSocketMaxRetries" (ErrorArg err)]).

(** The reading of the reconnect rule that asks every close or error of a
    client that was not stopped to schedule a reconnect. *)
Definition reconnectsOnEveryDrop (st : Client * Session) (ev : WsEvent)
    : Prop :=
  wsClosed st.1 = false → retries (handle st ev).2 ≠ [].

(** The reading of the stop rule that asks every close or error after
    [stop] to schedule nothing. *)
Definition quietAfterStop (self : Client) (s : Session)
    (evs : list WsEvent) : Prop :=
  retries (run (client (stop self), s) evs).2 = [].

End TransportReadings.

(** ** Readings of what an operation may do to the heap *)

(** A callee that writes to no object but the one it is handed (and to
    those it creates). *)
Definition writesOnlyTo (op : Heap → Value → Heap) : Prop :=
  ∀ h v l, is_Some (h !! l) → target v ≠ Some l → op h v !! l = h !! l.

(** A callee that returns the object it was handed or one it created. *)
Definition returnsOwnOrNew (f : Heap → Value → Heap * Value) : Prop :=
  ∀ h v l, is_Some (h !! l) → target (f h v).2 = Some l → target v = Some l.

(** ** [_attachApi] and [connect] *)

(** One operation of [self._swagger.apis[resource].operations], by what
    [attachOperation] reads of it. *)
Record OperSpec := {
  spec_type : OperType;
  spec_parameters : list OperParameter;
}.

(** What [_attachApi] hangs on the client under a name: a resource with its
    operations, each the [callSwagger] of that operation, or the creator of
    a resource type. *)
Inductive Member :=
| MResource (operations : gmap string Operation)
| MCreator (resourceType : string).

(** What swagger answers to [new swagger.SwaggerApi]: the success callback
    with [self._swagger.ready] and [self._swagger.apis] as they are then, or
    the failure callback with an error. *)
Inductive SwaggerAnswer :=
| Loaded (ready : bool) (apis : gmap string (gmap string OperSpec))
| Failed (err : string).

Section AttachApi.
Context `{RM : ResourcesModule}.

(** [self[resource][operation] = callSwagger], with what the closure holds. *)
Definition attachOperation (resource : string)
    (operations : gmap string Operation) (entry : string * OperSpec)
    : gmap string Operation :=
  <[entry.1 := {| op_resource := resource; op_name := entry.1;
                  op_type := spec_type entry.2;
                  op_parameters := spec_parameters entry.2 |}]> operations.

(** [self[resource] = {}] and the loop over the keys of its operations. *)
Definition attachResource (members : gmap string Member)
    (entry : string * gmap string OperSpec) : gmap string Member :=
  <[entry.1 := MResource (foldl (attachOperation entry.1) ∅
                            (map_to_list entry.2))]> members.

Definition attachResourceCreators (members : gmap string Member)
    (resourceType : string) : gmap string Member :=
  <[resourceType := MCreator resourceType]> members.

(** What the two handlers of [_attachApi] leave: the names on the client,
    what the client emitted, and the argument its callback was called with,
    if it was called. *)
Record Attached := {
  a_members : gmap string Member;
  a_emitted : list Action;
  a_called : option (option string);
}.

Definition swaggerLoaded (ready hasCallback : bool)
    (apis : gmap string (gmap string OperSpec))
    (members : gmap string Member) : Attached :=
  if ready then
    {| a_members :=
         foldl attachResourceCreators
           (foldl attachResource members (map_to_list apis)) knownTypes;
       a_emitted := [];
       a_called := if hasCallback then Some None else None |}
  else {| a_members := members; a_emitted := []; a_called := None |}.

Definition swaggerFailed (err : string) (hasCallback : bool)
    (members : gmap string Member) : Attached :=
  {| a_members := members;
     a_emitted := [Emit "APILoadError" (ErrorArg (Some err))];
     a_called := if hasCallback then Some (Some err) else None |}.

Definition attachApi (hasCallback : bool) (answer : SwaggerAnswer)
    (members : gmap string Member) : Attached :=
  match answer with
  | Loaded ready apis => swaggerLoaded ready hasCallback apis members
  | Failed err => swaggerFailed err hasCallback members
  end.

(** What [module.exports.connect] comes to once swagger has answered: the
    names on the new client, what it emitted, the call of the user's
    callback with its error argument, and the message of the error thrown
    for want of a callback. *)
Record Connected := {
  k_maxListeners : nat;
  k_members : gmap string Member;
  k_emitted : list Action;
  k_called : option (nat * option string);
  k_thrown : option string;
}.

Definition connectClient (callback : Value) (answer : SwaggerAnswer)
    : Connected :=
  let a := attachApi true answer ∅ in
  match a_called a with
  | Some err =>
      match callback with
      | VFunction f =>
          {| k_maxListeners := 0; k_members := a_members a;
             k_emitted := a_emitted a; k_called := Some (f, err);
             k_thrown := None |}
      | _ =>
          {| k_maxListeners := 0; k_members := a_members a;
             k_emitted := a_emitted a; k_called := None;
             k_thrown := Some "No callback provided to connect()" |}
      end
  | None =>
      {| k_maxListeners := 0; k_members := a_members a;
         k_emitted := a_emitted a; k_called := None; k_thrown := None |}
  end.

(** The operation a client exposes at [client.<resource>.<operation>]. *)
Definition exposed (members : gmap string Member) (resource operation : string)
    : option Operation :=
  match members !! resource with
  | Some (MResource operations) => operations !! operation
  | _ => None
  end.

End AttachApi.

Section MoreReadings.
Context `{RM : ResourcesModule} `{BM : BackoffModule}.

(** The announcement of a refused reconnect, as [reconnect] makes it. *)
Definition isMaxRetries (a : Action) : bool :=
  match a with
  | Emit name (ErrorArg _) => String.eqb name "WebSocketMaxRetries"
  | _ => false
  end.

Definition isRefusal (a : Action) : bool :=
  match a with Retry false => true | _ => false end.


(** The events that tell of a lost socket. *)
Definition isDrop (ev : WsEvent) : bool :=
  match ev with OnClose | OnError _ => true | _ => false end.

(** The type under which an emission is the global emission of its
    event. *)
Definition globalEmission (a : Action) : option string :=
  match a with
  | Emit name (EventArgs event _) =>
      match get event "type" with
      | Some (JStr type) => if String.eqb name type then Some type else None
      | _ => None
      end
  | _ => None
  end.

(** The type of a frame that has a model in the client's schema. *)
Definition frameType (self : Client) (msg : Text) : option string :=
  match frameEvent msg with
  | Some event => fst <$> findEventModel self event
  | None => None
  end.

(** What a frame leaves of the listeners of its type: all but the [once]
    listeners of the identities it promotes. *)
Definition remaining (ids : list string) (ls : list Listener)
    : list Listener :=
  List.filter (λ l, negb (l_once l && bool_decide (l_id l ∈ ids))) ls.

End MoreReadings.

(** ** The client as an event emitter, and the scoped listeners *)

(** One registration on the client's [EventEmitter]: [on(name, callback)]
    or [once(name, callback)]. *)
Record Registration := {
  r_name : string;
  r_callback : nat;
  r_once : bool;
}.

Section ScopedListeners.
Context `{RM : ResourcesModule}.

(** [EventEmitter.prototype.on] and [once]: the registrations of an emitter,
    in the order they were made. *)
Definition emitterOn (name : string) (callback : nat)
    (reg : list Registration) : list Registration :=
  reg ++ [{| r_name := name; r_callback := callback; r_once := false |}].

Definition emitterOnce (name : string) (callback : nat)
    (reg : list Registration) : list Registration :=
  reg ++ [{| r_name := name; r_callback := callback; r_once := true |}].

(** [EventEmitter.prototype.emit]: the callbacks registered under the name
    are called in their order, and the [once] registrations among them are
    gone afterwards. What a callback does is outside the client. *)
Definition emit (name : string) (reg : list Registration)
    : list Registration * list nat :=
  (List.filter (λ r, negb (String.eqb (r_name r) name && r_once r)) reg,
   r_callback <$> List.filter (λ r, String.eqb (r_name r) name) reg).

(** The emissions among the actions of a handler, on the emitter: the
    registrations left and the callbacks called, in order. *)
Fixpoint fire (reg : list Registration) (acts : list Action)
    : list Registration * list nat :=
  match acts with
  | [] => (reg, [])
  | Emit name _ :: rest =>
      let e := emit name reg in
      let r := fire e.1 rest in
      (r.1, e.2 ++ r.2)
  | _ :: rest => fire reg rest
  end.

(** A frame through [processMessage], with its emissions on the emitter. *)
Definition deliver (st : Client * list Registration) (msg : Text)
    : (Client * list Registration) * list nat :=
  let o := processMessage st.1 msg in
  let r := fire st.2 (actions o) in
  ((client o, r.1), r.2).

Fixpoint deliverAll (st : Client * list Registration) (frames : list Text)
    : (Client * list Registration) * list nat :=
  match frames with
  | [] => (st, [])
  | msg :: rest =>
      let d := deliver st msg in
      let r := deliverAll d.1 rest in
      (r.1, d.2 ++ r.2)
  end.

(** Modelled from the spec: the scoped emitter methods [on] and [once] of a
    resource instance, which [lib/resources.js] defines and [src/] does not
    hold. The spec has them register a listener for an event name, limited
    to the instance's identity, in [instance_listeners], the list per event
    name of entries with the instance id, the listener and the once flag;
    the per-instance notification of a promoted instance then reaches the
    listeners whose id matches, and a listener with the once flag fires at
    most once per registration. [processMessage] makes that notification on
    the client under the name [<event>-<id>], so the listener is registered
    on the client under that name, by [once] when its flag is set. *)
Definition instanceRegister (once : bool) (type x : string) (callback : nat)
    (st : Client * list Registration) : Client * list Registration :=
  (set_instanceListeners
     (<[type := listenersOf st.1 type
                ++ [{| l_once := once; l_id := x; l_callback := callback |}]]>
        (instanceListeners st.1))
     st.1,
   if once then emitterOnce (scopedName type x) callback st.2
   else emitterOn (scopedName type x) callback st.2).

Definition instanceOn := instanceRegister false.
Definition instanceOnce := instanceRegister true.

(** How many times a callback is among those called. *)
Definition timesCalled (callback : nat) (called : list nat) : nat :=
  length (List.filter (Nat.eqb callback) called).

(** How many registrations a callback has. *)
Definition registrationsOf (callback : nat) (reg : list Registration) : nat :=
  length (List.filter (λ r, Nat.eqb (r_callback r) callback) reg).

End ScopedListeners.

(** ** A concrete environment, after the mock server of the test suite *)

Module Fixture.

(** Instances by their type and payload; the identity is the payload's [id],
    or its [name] for the types keyed by name. *)
Definition fixtureId (i : string * Json) : string :=
  match get i.2 (if String.eqb i.1 "LiveRecording" then "name" else "id") with
  | Some (JStr s) => s
  | Some (JNum n) => pretty n
  | _ => "generated"
  end.

Definition fixtureTypes : list string :=
  ["Channel"; "Bridge"; "Playback"; "LiveRecording"].

Definition fixtureListType (type : string) : option string :=
  if String.prefix "List[" type
  then Some (String.substring 5 (String.length type - 6) type)
  else None.

#[export] Instance resources : ResourcesModule := {|
  ResourceInstance := string * Json;
  knownTypes := fixtureTypes;
  resourceFactory type :=
    if bool_decide (type ∈ fixtureTypes) then Some (λ payload, (type, payload))
    else None;
  instanceId := fixtureId;
  swaggerListTypeRegex := fixtureListType;
|}.

(** A backoff that schedules as long as retries remain. *)
#[export] Instance backoff : BackoffModule := {|
  Backoff := Z * nat;
  backoff_create delay := (delay, 10);
  backoff_call b :=
    match b.2 with
    | O => (false, b)
    | S n => (true, ((2 * b.1)%Z, n))
    end;
|}.

(** Body parameters move into [body]; the operation then empties the options
    it was given. *)
Definition fixtureBody (fields : gmap string Value) (p : OperParameter)
    : gmap string Value :=
  if String.eqb (paramType p) "body" then
    match fields !! param_name p with
    | Some v => <["body" := v]> (delete (param_name p) fields)
    | None => fields
    end
  else fields.

#[export] Instance operations : OperationModules := {|
  parseBodyParams params h options :=
    match options with
    | VObject l => (<[l := foldl fixtureBody (default ∅ (h !! l)) params]> h,
                    options)
    | _ => (h, options)
    end;
  swaggerOperation _ _ h options :=
    match options with
    | VObject l => <[l := ∅]> h
    | _ => h
    end;
|}.

Definition dquote : string := String (Ascii.ascii_of_nat 34) EmptyString.

(** [JSON.stringify] on values whose strings need no escape. *)
Fixpoint stringify (j : Json) : string :=
  match j with
  | JNull => "null"
  | JBool b => if b then "true" else "false"
  | JNum n => pretty n
  | JStr s => dquote +:+ s +:+ dquote
  | JArr l => "[" +:+ String.concat "," (map stringify l) +:+ "]"
  | JObj fields =>
      "{" +:+ String.concat ","
                (map (λ kv, match kv with
                            | (k, v) => dquote +:+ k +:+ dquote +:+ ":"
                                        +:+ stringify v
                            end) fields) +:+ "}"
  end.

(** [wsserver.send(msg)] of the test helpers: the frame that carries [msg]. *)
Definition send (msg : Json) : Text :=
  {| text := stringify msg; parsed := Some msg |}.

(** A frame that is not JSON. *)
Definition garbage : Text := {| text := "{type:"; parsed := None |}.

Definition models : gmap string (list ModelProperty) :=
  list_to_map
    [("PlaybackFinished",
      [{| p_name := "playback"; p_dataType := "Playback" |}]);
     ("ChannelDtmfReceived",
      [{| p_name := "digit"; p_dataType := "string" |};
       {| p_name := "channel"; p_dataType := "Channel" |}]);
     ("ChannelEnteredBridge",
      [{| p_name := "bridge"; p_dataType := "Bridge" |};
       {| p_name := "channel"; p_dataType := "Channel" |}]);
     ("BridgeMerged",
      [{| p_name := "bridge"; p_dataType := "Bridge" |};
       {| p_name := "bridge_from"; p_dataType := "Bridge" |}]);
     ("ApplicationReplaced", [])].

Definition withListeners (t : gmap string (list Listener)) : Client :=
  {| eventModels := models; instanceListeners := t;
     ws := Some "ws://localhost:8088/ari/events?app=unittests&api_key=user:secret";
     wsClosed := false |}.

Definition dtmf (digit channelId : string) : Json :=
  JObj [("type", JStr "ChannelDtmfReceived"); ("digit", JStr digit);
        ("channel", JObj [("id", JStr channelId)])].

Definition merged (bridgeId fromId : string) : Json :=
  JObj [("type", JStr "BridgeMerged");
        ("bridge", JObj [("id", JStr bridgeId)]);
        ("bridge_from", JObj [("id", JStr fromId)])].

Definition entered (bridgeId channelId : string) : Json :=
  JObj [("type", JStr "ChannelEnteredBridge");
        ("bridge", JObj [("id", JStr bridgeId)]);
        ("channel", JObj [("id", JStr channelId)])].

Definition session : Session :=
  {| processingError := false; retry := backoff_create 100;
     wsUrl := "ws://localhost:8088/ari/events?app=unittests&api_key=user:secret" |}.

Definition onceFor (x : string) : Listener :=
  {| l_once := true; l_id := x; l_callback := 1 |}.

Definition alwaysFor (x : string) : Listener :=
  {| l_once := false; l_id := x; l_callback := 2 |}.

Definition bare : Client := withListeners ∅.

Definition channelOf (x : string) : string * Json :=
  ("Channel", JObj [("id", JStr x)]).

Definition bridgeOf (x : string) : string * Json :=
  ("Bridge", JObj [("id", JStr x)]).

(** The client once the socket of [start] is open. *)
Definition connected : Client * Session :=
  (run (start bare "localhost:8088" "user" "secret" (AppName "unittests")).1
     [OnOpen]).1.

(** The options of the subscribe call of the test suite, at location 0. *)
Definition subscribeHeap : Heap :=
  {[ 0 := {[ "applicationName" := VStr "unittests";
             "eventSource" := VStr "bridge:b1" ]} ]}.

Definition subscribe : Operation :=
  {| op_resource := "applications"; op_name := "subscribe";
     op_type := TName "Application";
     op_parameters :=
       [{| param_name := "applicationName"; paramType := "path" |};
        {| param_name := "eventSource"; paramType := "query" |}] |}.

(** A part of the description the mock server serves. *)
Definition bridgesOperations : gmap string OperSpec :=
  list_to_map
    [("list", {| spec_type := TName "List[Bridge]"; spec_parameters := [] |});
     ("get", {| spec_type := TName "Bridge";
                spec_parameters :=
                  [{| param_name := "bridgeId"; paramType := "path" |}] |})].

Definition applicationsOperations : gmap string OperSpec :=
  list_to_map
    [("subscribe",
      {| spec_type := TName "Application";
         spec_parameters :=
           [{| param_name := "applicationName"; paramType := "path" |};
            {| param_name := "eventSource"; paramType := "query" |}] |})].

Definition fixtureApis : gmap string (gmap string OperSpec) :=
  list_to_map [("bridges", bridgesOperations);
               ("applications", applicationsOperations)].

Definition bridgeFactory (payload : Json) : @ResourceInstance resources :=
  ("Bridge", payload).

Definition bridgesList : Operation :=
  {| op_resource := "bridges"; op_name := "list";
     op_type := TName "List[Bridge]"; op_parameters := [] |}.

Definition dtmfListeners : Client :=
  withListeners {[ "ChannelDtmfReceived" := [onceFor "c1"; alwaysFor "c1"] ]}.

(** A lasting listener (callback 2) on the channel c1, registered before a
    [once] listener (callback 1) on the same channel. *)
Definition lastingOnC1 : Client * list Registration :=
  instanceOn "ChannelDtmfReceived" "c1" 2 (bare, []).

Definition dtmfProperties : list ModelProperty :=
  [{| p_name := "digit"; p_dataType := "string" |};
   {| p_name := "channel"; p_dataType := "Channel" |}].

End Fixture.


(** * Properties *)

(** ** The event demultiplexer *)

Section DemultiplexerProperties.
Context `{RM : ResourcesModule}.

Lemma scopedName_inj type x y : scopedName type x = scopedName type y → x = y.
Proof.
  unfold scopedName. intros H.
  apply (inj (String.app type)) in H. by apply (inj (String.app "-")) in H.
Qed.

Lemma scopedName_ne type x : type ≠ scopedName type x.
Proof.
  unfold scopedName. intros H.
  assert (String.app type "" = type) as Hnil.
  { clear H. induction type as [|a s IH]; [done|].
    change (String a (String.app s "") = String a s). by rewrite IH. }
  rewrite <- Hnil in H at 1.
  apply (inj (String.app type)) in H. discriminate.
Qed.

(** The loop over the listeners of one promoted instance. *)
Lemma foldl_routeListener x ls acc :
  foldl (routeListener x) acc ls =
  (if existsb (λ l, String.eqb (l_id l) x) ls
   then (if bool_decide (x ∈ acc.1) then acc.1 else acc.1 ++ [x])
   else acc.1,
   acc.2 ++ List.filter (stays x) ls).
Proof.
  revert acc. induction ls as [|l ls IH]; intros [ids upd]; simpl.
  - by rewrite app_nil_r.
  - rewrite IH. unfold routeListener, stays. simpl.
    destruct (String.eqb (l_id l) x) eqn:E; simpl.
    + assert (x ∈ (if bool_decide (x ∈ ids) then ids else ids ++ [x])) as Hin.
      { case_bool_decide; [done|]. apply elem_of_app. right. by left. }
      rewrite (bool_decide_eq_true_2 _ Hin).
      destruct (existsb _ ls); destruct (l_once l); simpl;
        by rewrite <- ?app_assoc.
    + by rewrite <- app_assoc.
Qed.

(** One round of the loop over the properties, field by field. *)
Lemma promoteProperty_skip type event st prop :
  promote event prop = None → promoteProperty type event st prop = st.
Proof. unfold promoteProperty. by intros ->. Qed.

Lemma promoteProperty_resources type event st prop i :
  promote event prop = Some i →
  d_resources (promoteProperty type event st prop)
  = <[p_name prop := i]> (d_resources st).
Proof.
  unfold promoteProperty. intros ->. by destruct (d_listeners st !! type).
Qed.

Lemma promoteProperty_listeners type event st prop i :
  promote event prop = Some i →
  d_listeners (promoteProperty type event st prop) !! type
  = List.filter (stays (instanceId i)) <$> (d_listeners st !! type).
Proof.
  unfold promoteProperty. intros ->.
  destruct (d_listeners st !! type) as [ls|] eqn:E; simpl.
  - by rewrite lookup_insert_eq, foldl_routeListener.
  - by rewrite E.
Qed.

Lemma promoteProperty_listeners_ne type event st prop k :
  k ≠ type →
  d_listeners (promoteProperty type event st prop) !! k = d_listeners st !! k.
Proof.
  unfold promoteProperty. intros Hk.
  destruct (promote event prop); [|done].
  destruct (d_listeners st !! type); simpl; [|done].
  by rewrite lookup_insert_ne.
Qed.

Lemma promoteProperty_instanceIds type event st prop :
  NoDup (d_instanceIds st) →
  NoDup (d_instanceIds (promoteProperty type event st prop)).
Proof.
  unfold promoteProperty. intros Hnd.
  destruct (promote event prop) as [i|]; [|done].
  destruct (d_listeners st !! type) as [ls|]; simpl; [|done].
  rewrite foldl_routeListener. simpl.
  destruct (existsb _ ls); [|done].
  case_bool_decide; [done|].
  apply NoDup_app. split_and!; [done| |apply NoDup_singleton].
  intros y Hy ->%list_elem_of_singleton. done.
Qed.

(** The whole loop, field by field. *)
Lemma loop_resources type event props st :
  d_resources (foldl (promoteProperty type event) st props)
  = foldl (λ m ni, <[ni.1 := ni.2]> m) (d_resources st)
      (promotions event props).
Proof.
  revert st. induction props as [|prop props IH]; intros st; [done|].
  simpl. rewrite IH. unfold promotions. simpl.
  destruct (promote event prop) as [i|] eqn:E; simpl.
  - by rewrite (promoteProperty_resources _ _ _ _ i E).
  - by rewrite promoteProperty_skip.
Qed.

Lemma loop_instanceIds type event props st :
  NoDup (d_instanceIds st) →
  NoDup (d_instanceIds (foldl (promoteProperty type event) st props)).
Proof.
  revert st. induction props as [|prop props IH]; intros st Hnd; [done|].
  simpl. by apply IH, promoteProperty_instanceIds.
Qed.

Lemma loop_listeners type event props st :
  d_listeners (foldl (promoteProperty type event) st props) !! type
  = (λ ls, foldl (λ ls x, List.filter (stays x) ls) ls
             (promotedIds event props))
    <$> (d_listeners st !! type).
Proof.
  revert st. induction props as [|prop props IH]; intros st.
  - simpl. by destruct (d_listeners st !! type).
  - simpl. rewrite IH. unfold promotedIds, promotions. simpl.
    destruct (promote event prop) as [i|] eqn:E; simpl.
    + rewrite (promoteProperty_listeners _ _ _ _ i E).
      by destruct (d_listeners st !! type).
    + by rewrite promoteProperty_skip.
Qed.

Lemma loop_listeners_ne type event props st k :
  k ≠ type →
  d_listeners (foldl (promoteProperty type event) st props) !! k
  = d_listeners st !! k.
Proof.
  intros Hk. revert st.
  induction props as [|prop props IH]; intros st; [done|].
  simpl. rewrite IH. by apply promoteProperty_listeners_ne.
Qed.

(** [processMessage] on a frame whose event has a model. *)
Lemma processMessage_dispatch self msg event type props :
  frameEvent msg = Some event →
  get event "type" = Some (JStr type) →
  eventModels self !! type = Some props →
  let st := foldl (promoteProperty type event)
              {| d_resources := ∅; d_instanceIds := [];
                 d_listeners := instanceListeners self |} props in
  processMessage self msg =
  {| client := set_instanceListeners (d_listeners st) self;
     actions :=
       Emit type (EventArgs event (resourcesArgument (d_resources st))) ::
       ((λ x, Emit (scopedName type x)
                (EventArgs event (resourcesArgument (d_resources st))))
          <$> d_instanceIds st);
     thrown := None |}.
Proof.
  intros Hev Hty Hmodel. unfold processMessage, findEventModel.
  rewrite Hev, Hty, Hmodel. simpl. do 2 f_equal.
  by destruct (d_instanceIds _).
Qed.

(** The object [resources] after the loop, as a map. *)
Lemma foldl_insert_list_to_map (ps : list (string * ResourceInstance))
    (m : gmap string ResourceInstance) :
  foldl (λ m ni, <[ni.1 := ni.2]> m) m ps = list_to_map (reverse ps) ∪ m.
Proof.
  revert m. induction ps as [|[k v] ps IH]; intros m; simpl.
  - by rewrite (left_id_L ∅ (∪)).
  - rewrite IH, reverse_cons, list_to_map_app. simpl.
    rewrite insert_empty, <- (assoc_L (∪)).
    by rewrite <- insert_union_singleton_l.
Qed.

Lemma promotions_names event props :
  (promotions event props).*1 ⊆ p_name <$> props.
Proof.
  induction props as [|prop props IH]; [done|].
  unfold promotions in *. simpl. intros n Hn.
  destruct (promote event prop); simpl in Hn.
  - apply elem_of_cons in Hn as [->|Hn]; [left|right; by apply IH].
  - right. by apply IH.
Qed.

Lemma promotions_NoDup event props :
  NoDup (p_name <$> props) → NoDup (promotions event props).*1.
Proof.
  induction props as [|prop props IH]; [intros; apply NoDup_nil_2|].
  rewrite fmap_cons. intros [Hnotin Hnd]%NoDup_cons.
  pose proof (promotions_names event props) as Hsub.
  unfold promotions in *. simpl.
  destruct (promote event prop); simpl; [|by apply IH].
  apply NoDup_cons. split; [|by apply IH].
  intros Hin. by apply Hnotin, Hsub.
Qed.

Lemma loop_resources_lookup type event props name instance :
  NoDup (p_name <$> props) →
  d_resources (foldl (promoteProperty type event)
                 {| d_resources := ∅; d_instanceIds := [];
                    d_listeners := ∅ |} props) !! name = Some instance
  ↔ (name, instance) ∈ promotions event props.
Proof.
  intros Hnd%(promotions_NoDup event).
  rewrite loop_resources, foldl_insert_list_to_map. simpl.
  rewrite (right_id_L ∅ (∪)), <- elem_of_list_to_map.
  - by rewrite elem_of_reverse.
  - by rewrite fmap_reverse, reverse_Permutation.
Qed.

(** The state of the loop does not look at the listeners to build
    [resources]. *)
Lemma loop_resources_any type event props st st' :
  d_resources st = d_resources st' →
  d_resources (foldl (promoteProperty type event) st props)
  = d_resources (foldl (promoteProperty type event) st' props).
Proof. intros H. by rewrite !loop_resources, H. Qed.

(** C1. For a frame whose event has a model with distinct property names,
    the global emission is the first thing [processMessage] does, and its
    second argument follows the number of promoted properties: none gives
    [undefined], exactly one gives that instance itself, and two or more give
    the map that sends each promoted property name to its instance. *)
Theorem resources_argument_by_promotions self msg event type props :
  frameEvent msg = Some event →
  get event "type" = Some (JStr type) →
  eventModels self !! type = Some props →
  NoDup (p_name <$> props) →
  ∃ resources rest,
    actions (processMessage self msg)
    = Emit type (EventArgs event resources) :: rest
    ∧ match promotions event props with
      | [] => resources = RUndefined
      | [(_, instance)] => resources = ROne instance
      | ps =>
          ∃ byName, resources = RMany byName
            ∧ ∀ name instance,
                byName !! name = Some instance ↔ (name, instance) ∈ ps
      end.
Proof.
  intros Hev Hty Hmodel Hnd.
  rewrite (processMessage_dispatch _ _ _ _ _ Hev Hty Hmodel). simpl.
  eexists _, _. split; [done|].
  pose proof (promotions_NoDup event props Hnd) as Hnd'.
  pose proof (λ name instance,
    loop_resources_lookup type event props name instance Hnd) as Hlook.
  rewrite (loop_resources_any type event props _
             {| d_resources := ∅; d_instanceIds := []; d_listeners := ∅ |})
    by done.
  set (m := d_resources _) in *.
  assert (size m = length (promotions event props)) as Hsize.
  { subst m. rewrite loop_resources, foldl_insert_list_to_map. simpl.
    rewrite (right_id_L ∅ (∪)), <- length_map_to_list.
    rewrite <- (length_reverse (promotions event props)).
    apply Permutation_length, map_to_list_to_map.
    by rewrite fmap_reverse, reverse_Permutation. }
  assert (m = list_to_map (reverse (promotions event props))) as Hm.
  { subst m. rewrite loop_resources, foldl_insert_list_to_map. simpl.
    by rewrite (right_id_L ∅ (∪)). }
  unfold resourcesArgument. rewrite Hsize.
  destruct (promotions event props) as [|[n i] [|[n' i'] ps]]; simpl.
  - done.
  - rewrite Hm. simpl. rewrite insert_empty, map_to_list_singleton. simpl.
    by rewrite lookup_singleton_eq.
  - eexists. split; [done|]. apply Hlook.
Qed.

(** The scoped emissions under one name, for identities without
    repetition. *)
Lemma scoped_emissions_absent type x args ids :
  x ∉ ids →
  List.filter (emitsTo (scopedName type x))
    ((λ y, Emit (scopedName type y) args) <$> ids) = [].
Proof.
  induction ids as [|y ids IH]; [done|].
  intros [Hne Hnotin]%not_elem_of_cons. simpl.
  destruct (String.eqb_spec (scopedName type y) (scopedName type x)) as [E|_].
  - by apply scopedName_inj in E.
  - by apply IH.
Qed.

Lemma scoped_emissions_NoDup type x args ids :
  NoDup ids →
  length (List.filter (emitsTo (scopedName type x))
            ((λ y, Emit (scopedName type y) args) <$> ids)) ≤ 1.
Proof.
  induction ids as [|y ids IH]; [simpl; lia|].
  intros [Hnotin Hnd]%NoDup_cons. simpl.
  destruct (String.eqb_spec (scopedName type y) (scopedName type x)) as [E|_].
  - apply scopedName_inj in E as ->.
    by rewrite scoped_emissions_absent.
  - by apply IH.
Qed.

(** C4. For a frame that carries an event of type [type] and for every
    identity [x], [processMessage] emits under the scoped name of [(type, x)]
    at most once, however many properties of the event promote to instances
    with the identity [x]. *)
Theorem scoped_delivery_at_most_once self msg event type x :
  frameEvent msg = Some event →
  get event "type" = Some (JStr type) →
  length (List.filter (emitsTo (scopedName type x))
            (actions (processMessage self msg))) ≤ 1.
Proof.
  intros Hev Hty.
  destruct (eventModels self !! type) as [props|] eqn:Hmodel.
  - rewrite (processMessage_dispatch _ _ _ _ _ Hev Hty Hmodel). simpl.
    destruct (String.eqb_spec type (scopedName type x)) as [E|_].
    { by apply scopedName_ne in E. }
    by apply scoped_emissions_NoDup, loop_instanceIds, NoDup_nil_2.
  - unfold processMessage, findEventModel. rewrite Hev, Hty, Hmodel.
    simpl. lia.
Qed.

(** What the promoted identities leave of a listener list. *)
Lemma elem_of_filtered ids : ∀ (ls : list Listener) l,
  l ∈ foldl (λ ls x, List.filter (stays x) ls) ls ids
  ↔ l ∈ ls ∧ ∀ x, x ∈ ids → stays x l = true.
Proof.
  induction ids as [|y ids IH]; intros ls l; simpl.
  - split; [|by intros [? _]].
    intros Hl. split; [done|]. intros x Hx. by apply not_elem_of_nil in Hx.
  - rewrite IH, !list_elem_of_In, filter_In, <- !list_elem_of_In.
    split.
    + intros [[Hl Hy] Hids]. split; [done|].
      intros x [->|Hx]%elem_of_cons; auto.
    + intros [Hl Hall]. split_and!; [done|apply Hall; left|].
      intros x Hx. apply Hall. by right.
Qed.

(** [processMessage] never adds a listener to the table. *)
Lemma processMessage_listeners_shrink self msg type l :
  l ∈ listenersOf (client (processMessage self msg)) type →
  l ∈ listenersOf self type.
Proof.
  unfold processMessage.
  destruct (frameEvent msg) as [event|]; [|done].
  unfold findEventModel.
  destruct (get event "type") as [[| | |ty| |]|]; try done.
  destruct (eventModels self !! ty) as [props|]; [|done].
  unfold listenersOf. simpl.
  destruct (decide (type = ty)) as [->|Hne].
  - rewrite loop_listeners. simpl.
    destruct (instanceListeners self !! ty); simpl; [|done].
    by intros [? _]%elem_of_filtered.
  - by rewrite loop_listeners_ne.
Qed.

Lemma afterFrames_listeners_shrink frames : ∀ self type l,
  l ∈ listenersOf (afterFrames self frames) type →
  l ∈ listenersOf self type.
Proof.
  induction frames as [|msg frames IH]; intros self type l; [done|].
  simpl. intros H%IH. by eapply processMessage_listeners_shrink.
Qed.

(** The table after a dispatch: once a frame of type [type] that promotes an
    instance with identity [x] has gone through [processMessage], the
    listener table holds no [once] entry for [x] under [type], and none
    comes back through any later frames. *)
Lemma once_listener_removed_after_dispatch self msg event type props x :
  frameEvent msg = Some event →
  get event "type" = Some (JStr type) →
  eventModels self !! type = Some props →
  x ∈ promotedIds event props →
  ∀ later l,
    l ∈ listenersOf (afterFrames (client (processMessage self msg)) later) type →
    l_id l = x → l_once l = false.
Proof.
  intros Hev Hty Hmodel Hx later l Hl%afterFrames_listeners_shrink Hid.
  rewrite (processMessage_dispatch _ _ _ _ _ Hev Hty Hmodel) in Hl.
  unfold listenersOf in Hl. simpl in Hl. rewrite loop_listeners in Hl.
  simpl in Hl. destruct (instanceListeners self !! type); simpl in Hl.
  - apply elem_of_filtered in Hl as [_ Hall]. specialize (Hall x Hx).
    unfold stays in Hall. rewrite <- Hid, String.eqb_refl in Hall.
    by destruct (l_once l).
  - by apply not_elem_of_nil in Hl.
Qed.

(** C8, as amended. A frame that is not JSON makes [processMessage] throw a
    syntax error, and one whose event has no model a type error; either way
    nothing was emitted and the client is as it was, so that the next frame
    is handled as if the bad one had never arrived. *)
Theorem bad_frame_throws_before_dispatch self msg :
  malformed msg ∨ unrecognized self msg →
  thrown (processMessage self msg)
    = Some (if decide (frameEvent msg = None) then SyntaxError else TypeError)
  ∧ actions (processMessage self msg) = []
  ∧ client (processMessage self msg) = self
  ∧ ∀ next, processMessage (client (processMessage self msg)) next
            = processMessage self next.
Proof.
  assert (∀ e, processMessage self msg = throw self e →
    thrown (processMessage self msg) = Some e
    ∧ actions (processMessage self msg) = []
    ∧ client (processMessage self msg) = self
    ∧ ∀ next, processMessage (client (processMessage self msg)) next
              = processMessage self next) as Hthrow.
  { by intros e ->. }
  unfold malformed, unrecognized, processMessage at 1.
  intros [Hev|(event & Hev & Hmodel)]; apply Hthrow; unfold processMessage;
    rewrite Hev; [by rewrite decide_True|].
  rewrite decide_False by done.
  unfold findEventModel.
  destruct (get event "type") as [[| | |ty| |]|]; try done.
  by rewrite (Hmodel ty).
Qed.

End DemultiplexerProperties.

(** ** The WebSocket handlers *)

Section TransportProperties.
Context `{RM : ResourcesModule} `{BM : BackoffModule}.

Lemma advance_add n m b : advance m (advance n b) = advance (n + m) b.
Proof.
  unfold advance. rewrite Nat.add_comm. by rewrite Nat.iter_add.
Qed.

Lemma retries_app (a b : list Action) :
  retries (a ++ b) = retries a ++ retries b.
Proof. unfold retries. apply List.filter_app. Qed.

Lemma retries_processMessage self msg :
  retries (actions (processMessage self msg)) = [].
Proof.
  unfold processMessage.
  destruct (frameEvent msg) as [event|]; [|done].
  destruct (findEventModel self event) as [[type props]|]; [|done].
  simpl. destruct (Nat.ltb _ _); [|done].
  by induction (d_instanceIds _).
Qed.

Lemma wsClosed_processMessage self msg :
  wsClosed (client (processMessage self msg)) = wsClosed self.
Proof.
  unfold processMessage.
  destruct (frameEvent msg) as [event|]; [|done].
  by destruct (findEventModel self event) as [[type props]|].
Qed.

(** Each handler calls the backoff at most once, and the session keeps the
    backoff as the calls left it. *)
Lemma handle_retry st ev :
  retry (handle st ev).1.2
  = advance (length (retries (handle st ev).2)) (retry st.2)
  ∧ length (retries (handle st ev).2) ≤ 1.
Proof.
  destruct st as [self s].
  destruct ev; simpl.
  - rewrite retries_processMessage. split; [done|simpl; lia].
  - split; [done|simpl; lia].
  - unfold processClose, reconnect. simpl.
    destruct (wsClosed self); [split; [done|simpl; lia]|].
    destruct (processingError s); simpl; [split; [done|lia]|].
    destruct (backoff_call (retry s)).1; simpl; (split; [done|lia]).
  - unfold processError, reconnect. simpl.
    destruct (wsClosed self); [split; [done|simpl; lia]|]. simpl.
    destruct (backoff_call (retry s)).1; simpl; (split; [done|lia]).
  - split; [done|simpl; lia].
  - unfold stop. destruct (ws self); simpl; (split; [done|lia]).
Qed.

Lemma run_retry evs : ∀ st,
  retry (run st evs).1.2
  = advance (length (retries (run st evs).2)) (retry st.2).
Proof.
  induction evs as [|ev evs IH]; intros st; [done|].
  simpl. rewrite IH, retries_app, length_app, <- advance_add.
  by rewrite <- (proj1 (handle_retry st ev)).
Qed.

(** While the client is marked as closed on purpose, no handler but the
    close handler clears the mark, and none calls the backoff. *)
Lemma handle_while_closed st ev :
  wsClosed st.1 = true → ev ≠ OnClose →
  wsClosed (handle st ev).1.1 = true ∧ retries (handle st ev).2 = [].
Proof.
  destruct st as [self s]. simpl. intros Hclosed Hev.
  destruct ev; simpl; try done.
  - by rewrite wsClosed_processMessage, retries_processMessage.
  - unfold processError. simpl. by rewrite Hclosed.
  - unfold stop. by destruct (ws self).
Qed.

Lemma run_while_closed evs : ∀ st,
  wsClosed st.1 = true → Forall (λ ev, ev ≠ OnClose) evs →
  wsClosed (run st evs).1.1 = true ∧ retries (run st evs).2 = [].
Proof.
  induction evs as [|ev evs IH]; intros st Hclosed Hevs; [done|].
  apply Forall_cons in Hevs as [Hev Hevs]. simpl.
  destruct (handle_while_closed st ev Hclosed Hev) as [Hc Hr].
  destruct (IH _ Hc Hevs) as [Hc' Hr'].
  by rewrite retries_app, Hr, Hr'.
Qed.

Lemma run_app evs evs' st :
  run st (evs ++ evs')
  = ((run (run st evs).1 evs').1, (run st evs).2 ++ (run (run st evs).1 evs').2).
Proof.
  revert st. induction evs as [|ev evs IH]; intros st; simpl.
  - by destruct (run st evs').
  - rewrite IH. simpl. by rewrite app_assoc.
Qed.

(** C2, as amended. Under the handlers of a call of [start], whatever
    happened since: the backoff in use is the one [start] created with a
    delay of 100, advanced by the calls made so far; an open clears the error
    flag; an error of a client that was not stopped, and a close of a client
    that was not stopped while no error is being processed, call the backoff,
    which schedules the reconnect or, refusing, has [WebSocketMaxRetries]
    emitted; a close while an error is being processed does nothing. *)
Theorem open_clears_flag_and_drop_calls_backoff
    self host user pass apps evs :
  let st := (run (start self host user pass apps).1 evs).1 in
  retry st.2
    = advance (length (retries (run (start self host user pass apps).1 evs).2))
        (backoff_create 100)
  ∧ processingError (handle st OnOpen).1.2 = false
  ∧ (wsClosed st.1 = false →
     ∀ err, (handle st (OnError err)).2
            = reconnectActions (Some err) (retry st.2))
  ∧ (wsClosed st.1 = false → processingError st.2 = false →
     (handle st OnClose).2 = reconnectActions None (retry st.2))
  ∧ (wsClosed st.1 = false → processingError st.2 = true →
     handle st OnClose = (st, [])).
Proof.
  intros st. split_and!.
  - subst st. by rewrite run_retry.
  - done.
  - intros Hopen err. simpl. unfold processError. by rewrite Hopen.
  - intros Hopen Hflag. simpl. unfold processClose.
    by rewrite Hopen, Hflag.
  - intros Hopen Hflag. simpl. unfold processClose.
    by rewrite Hopen, Hflag.
Qed.

(** C3, as amended. After a [stop] that found a socket, nothing up to and
    including the first close calls the backoff, and that close clears the
    mark [stop] had set; a close that finds the mark clear while no error is
    being processed calls the backoff. *)
Theorem stop_silences_until_first_close self s pre :
  thrown (stop self) = None →
  Forall (λ ev, ev ≠ OnClose) pre →
  retries (run (client (stop self), s) (pre ++ [OnClose])).2 = []
  ∧ wsClosed (run (client (stop self), s) (pre ++ [OnClose])).1.1 = false
  ∧ ∀ st, wsClosed st.1 = false → processingError st.2 = false →
      retries (handle st OnClose).2 = [Retry (backoff_call (retry st.2)).1].
Proof.
  intros Hstop Hpre.
  assert (wsClosed (client (stop self), s).1 = true) as Hclosed.
  { unfold stop in *. by destruct (ws self). }
  destruct (run_while_closed pre _ Hclosed Hpre) as [Hc Hr].
  rewrite run_app. cbn [fst snd]. rewrite retries_app, Hr. simpl.
  unfold processClose. rewrite Hc. simpl. split_and!; [done..|].
  intros st Hopen Hflag. unfold processClose, reconnect.
  rewrite Hopen, Hflag. simpl.
  by destruct (backoff_call (retry st.2)).1.
Qed.

(** C10. An error followed by a close calls the backoff at most once: on a
    client that was not stopped the error handler sets the error flag and
    makes the one call, and the close handler then makes none; no handler
    but the open handler clears the flag once it is set. *)
Theorem error_then_close_reconnects_once st err :
  length (retries (run st [OnError err; OnClose]).2) ≤ 1
  ∧ (wsClosed st.1 = false →
     processingError (handle st (OnError err)).1.2 = true
     ∧ retries (handle st (OnError err)).2
       = [Retry (backoff_call (retry st.2)).1]
     ∧ retries (handle (handle st (OnError err)).1 OnClose).2 = [])
  ∧ (∀ st' ev, ev ≠ OnOpen → processingError st'.2 = true →
       processingError (handle st' ev).1.2 = true)
  ∧ processingError (handle st OnOpen).1.2 = false.
Proof.
  destruct st as [self s]. split_and!.
  - simpl. unfold processError, processClose, reconnect. simpl.
    destruct (wsClosed self) eqn:Hc; simpl.
    + rewrite Hc. simpl. lia.
    + rewrite Hc. simpl. destruct (backoff_call (retry s)).1; simpl; lia.
  - simpl. intros Hopen. unfold processError, processClose, reconnect.
    simpl. rewrite Hopen. simpl. rewrite Hopen. simpl.
    by destruct (backoff_call (retry s)).1.
  - intros [self' s'] ev Hev Hflag. simpl in Hflag.
    destruct ev; simpl; try done.
    + unfold processClose, reconnect. simpl. rewrite Hflag.
      by destruct (wsClosed self').
    + unfold processError, reconnect. simpl. by destruct (wsClosed self').
  - done.
Qed.

End TransportProperties.

(** ** The operation binding *)

Section OperationProperties.
Context `{RM : ResourcesModule} `{OM : OperationModules}.

(** C6. Whatever an operation is called with, the object the caller passed
    as options has the same fields after the call as before, given that the
    helper and the swagger operation write only to the options they are
    handed: they are handed a copy. *)
Theorem options_not_mutated oper (h : Heap) args l :
  (∀ resource operation,
     writesOnlyTo (swaggerOperation resource operation)) →
  (∀ params, writesOnlyTo (λ h v, (parseBodyParams params h v).1)
             ∧ returnsOwnOrNew (parseBodyParams params)) →
  target (first args) = Some l →
  is_Some (h !! l) →
  c_heap (callSwagger oper h args) !! l = h !! l.
Proof.
  intros Hswagger Hparse Htarget Hlive.
  assert (fresh (dom h) ≠ l) as Hfresh.
  { intros <-. apply elem_of_dom in Hlive. by apply is_fresh in Hlive. }
  unfold callSwagger. simpl.
  destruct (first args) as [| | | | | |a|o] eqn:Hfirst; try done; simpl.
  - rewrite Hswagger.
    + by rewrite lookup_insert_ne.
    + rewrite lookup_insert_ne by done. done.
    + simpl. congruence.
  - destruct (Hparse (op_parameters oper)) as [Hwrites Hreturns].
    set (h1 := <[fresh (dom h) := default ∅ (h !! o)]> h).
    assert (h1 !! l = h !! l) as Hh1 by (by apply lookup_insert_ne).
    assert ((parseBodyParams (op_parameters oper) h1
               (VObject (fresh (dom h)))).1 !! l = h !! l) as Hh2.
    { rewrite <- Hh1. apply (Hwrites h1); [by rewrite Hh1|]. simpl. congruence. }
    rewrite Hswagger; [done|by rewrite Hh2|].
    intros Hret. apply Hreturns in Hret; [|by rewrite Hh1].
    simpl in Hret. congruence.
Qed.

(** C7. When the failure callback of an operation whose last argument is a
    function receives a response that carries a body, the function is called
    once, with an error whose message is that body as a string. *)
Theorem error_message_is_response_body oper (h : Heap) args f body :
  last args = VFunction f →
  dataTruthy body = true →
  swaggerError (c_userCallback (callSwagger oper h args))
    (ErrObject (Some body))
  = {| calls := [{| u_callback := f; u_err := EError (dataToString body);
                    u_result := None |}];
       raised := None |}.
Proof.
  intros Hlast Hbody. unfold callSwagger, swaggerError. simpl.
  by rewrite Hlast, Hbody.
Qed.

(** C9. When the last argument of an operation is not a function, the
    success callback calls nothing and raises nothing, whatever the
    response, and the failure callback raises a type error, whatever the
    error; the success callback calls the user only when the last argument
    is a function, while the failure callback calls whatever function it is
    given without any test. *)
Theorem missing_callback_fails_only_on_error oper (h : Heap) args :
  isFunction (last args) = false →
  (∀ data, processResponse oper (c_userCallback (callSwagger oper h args)) data
           = {| calls := []; raised := None |})
  ∧ (∀ err, swaggerError (c_userCallback (callSwagger oper h args)) err
            = {| calls := []; raised := Some TypeError |})
  ∧ (∀ cb data, calls (processResponse oper cb data) ≠ [] →
                isFunction cb = true)
  ∧ (∀ f err, ∃ e,
       swaggerError (VFunction f) err
       = {| calls := [{| u_callback := f; u_err := e; u_result := None |}];
            raised := None |}).
Proof.
  intros Hlast. unfold callSwagger. simpl. split_and!.
  - intros data. unfold processResponse. by destruct (last args).
  - intros err. unfold swaggerError. by destruct (last args).
  - intros cb data. unfold processResponse. by destruct cb.
  - intros f err. by eexists.
Qed.

End OperationProperties.

(** ** More on the event demultiplexer *)

Section DemultiplexerMore.
Context `{RM : ResourcesModule}.

Lemma existsb_listener x (ls : list Listener) :
  existsb (λ l, String.eqb (l_id l) x) ls = true
  ↔ ∃ l, l ∈ ls ∧ l_id l = x.
Proof.
  rewrite existsb_exists. split.
  - intros (l & Hl%list_elem_of_In & E%String.eqb_eq). eauto.
  - intros (l & Hl%list_elem_of_In & E). exists l. split; [done|].
    by apply String.eqb_eq.
Qed.

Lemma stays_other x (l : Listener) : l_id l ≠ x → stays x l = true.
Proof.
  intros Hne. unfold stays.
  by destruct (String.eqb_spec (l_id l) x).
Qed.

(** The identities the loop collects: those it had, and those that are
    promoted while a listener for them is in the table. *)
Lemma loop_instanceIds_elem type event props : ∀ st x,
  x ∈ d_instanceIds (foldl (promoteProperty type event) st props)
  ↔ x ∈ d_instanceIds st
    ∨ (x ∈ promotedIds event props
       ∧ ∃ l, l ∈ default [] (d_listeners st !! type) ∧ l_id l = x).
Proof.
  induction props as [|prop props IH]; intros st x.
  - simpl. split; [by left|]. intros [H|[H _]]; [done|].
    by apply not_elem_of_nil in H.
  - simpl. rewrite IH. unfold promotedIds, promotions. simpl.
    destruct (promote event prop) as [i|] eqn:E; simpl;
      [|rewrite promoteProperty_skip by done; reflexivity].
    rewrite (promoteProperty_listeners _ _ _ _ i E).
    unfold promoteProperty. rewrite E.
    destruct (d_listeners st !! type) as [ls|] eqn:Els; simpl.
    + rewrite foldl_routeListener. simpl.
      fold (promotions event props). fold (promotedIds event props).
      split.
      * intros [Hx|(Hx & l & Hl & Hid)].
        -- destruct (existsb _ ls) eqn:Hex; [|by left].
           case_bool_decide; [by left|].
           apply elem_of_app in Hx as [Hx|Hx%list_elem_of_singleton];
             [by left|]. subst x.
           right. split; [left|]. by apply existsb_listener.
        -- right. split; [by right|].
           apply list_elem_of_In, filter_In in Hl as [Hl%list_elem_of_In _].
           eauto.
      * intros [Hx|(Hx & l & Hl & Hid)].
        -- left. destruct (existsb _ ls); [|done].
           case_bool_decide; [done|]. apply elem_of_app. by left.
        -- destruct (decide (x = instanceId i)) as [->|Hne].
           ++ left.
              assert (existsb (λ l, String.eqb (l_id l) (instanceId i)) ls
                      = true) as -> by (apply existsb_listener; eauto).
              case_bool_decide; [done|]. apply elem_of_app. right. by left.
           ++ right. apply elem_of_cons in Hx as [Hx|Hx]; [done|].
              split; [done|]. exists l. split; [|done].
              apply list_elem_of_In, filter_In. split.
              ** by apply list_elem_of_In.
              ** apply stays_other. congruence.
    + fold (promotions event props). fold (promotedIds event props).
      split.
      * intros [Hx|(_ & l & Hl & _)]; [by left|].
        by apply not_elem_of_nil in Hl.
      * intros [Hx|(_ & l & Hl & _)]; [by left|].
        by apply not_elem_of_nil in Hl.
Qed.

(** X1. A frame emits under the scoped name of an identity exactly when the
    event promotes an instance with that identity and the table holds a
    listener for it under the event's type. *)
Theorem scoped_emission_iff_promoted_and_listened
    self msg event type props x :
  frameEvent msg = Some event →
  get event "type" = Some (JStr type) →
  eventModels self !! type = Some props →
  (∃ args, Emit (scopedName type x) args ∈ actions (processMessage self msg))
  ↔ x ∈ promotedIds event props
    ∧ ∃ l, l ∈ listenersOf self type ∧ l_id l = x.
Proof.
  intros Hev Hty Hmodel.
  rewrite (processMessage_dispatch _ _ _ _ _ Hev Hty Hmodel). simpl.
  pose proof (loop_instanceIds_elem type event props
                {| d_resources := ∅; d_instanceIds := [];
                   d_listeners := instanceListeners self |} x) as Hids.
  simpl in Hids. unfold listenersOf. rewrite <- (or_False (_ ∧ _)).
  rewrite (or_comm _ False).
  assert (False ↔ x ∈ ([] : list string)) as -> .
  { split; [done|]. apply not_elem_of_nil. }
  rewrite <- Hids. split.
  - intros (args & [Hhead|Hin]%elem_of_cons).
    + injection Hhead as Hname _. symmetry in Hname.
      by apply scopedName_ne in Hname.
    + apply list_elem_of_fmap in Hin as (y & Heq & Hy).
      injection Heq as Hname. by apply scopedName_inj in Hname as ->.
  - intros Hx. eexists. right. apply list_elem_of_fmap. eauto.
Qed.

Lemma remaining_cons y ids (ls : list Listener) :
  remaining ids (List.filter (stays y) ls) = remaining (y :: ids) ls.
Proof.
  unfold remaining, stays. induction ls as [|l ls IH]; [done|]. simpl.
  destruct (String.eqb_spec (l_id l) y) as [E|E];
    destruct (l_once l) eqn:Ho; simpl; rewrite ?Ho; simpl.
  - rewrite IH. rewrite bool_decide_eq_true_2 by (rewrite E; left). done.
  - by rewrite IH.
  - rewrite IH.
    destruct (bool_decide (l_id l ∈ ids)) eqn:Hin.
    + apply bool_decide_eq_true_1 in Hin.
      rewrite bool_decide_eq_true_2 by (by right). done.
    + apply bool_decide_eq_false_1 in Hin.
      rewrite bool_decide_eq_false_2; [done|].
      intros [?|?]%elem_of_cons; done.
  - by rewrite IH.
Qed.

Lemma foldl_filter_remaining ids : ∀ ls : list Listener,
  foldl (λ ls x, List.filter (stays x) ls) ls ids = remaining ids ls.
Proof.
  induction ids as [|y ids IH]; intros ls; simpl.
  - unfold remaining. induction ls as [|l ls IHl]; [done|]. simpl in *.
    rewrite andb_false_r. simpl. by rewrite <- IHl.
  - by rewrite IH, remaining_cons.
Qed.

(** X2. After a frame, the listeners under its type are those that were
    there, in their order, without the [once] listeners of the identities
    the event promotes; the listeners under every other type are as they
    were, and no entry is made for a type that had none. *)
Theorem listeners_after_frame self msg event type props k :
  frameEvent msg = Some event →
  get event "type" = Some (JStr type) →
  eventModels self !! type = Some props →
  instanceListeners (client (processMessage self msg)) !! k
  = if decide (k = type)
    then remaining (promotedIds event props) <$> (instanceListeners self !! type)
    else instanceListeners self !! k.
Proof.
  intros Hev Hty Hmodel.
  rewrite (processMessage_dispatch _ _ _ _ _ Hev Hty Hmodel). simpl.
  destruct (decide (k = type)) as [->|Hne].
  - rewrite loop_listeners. simpl.
    destruct (instanceListeners self !! type); simpl; [|done].
    by rewrite foldl_filter_remaining.
  - by rewrite loop_listeners_ne.
Qed.

Lemma remaining_idemp ids (ls : list Listener) :
  remaining ids (remaining ids ls) = remaining ids ls.
Proof.
  unfold remaining. induction ls as [|l ls IH]; [done|]. simpl.
  destruct (negb _) eqn:E; simpl; [|done]. by rewrite E, IH.
Qed.

Lemma eventModels_processMessage self msg :
  eventModels (client (processMessage self msg)) = eventModels self.
Proof.
  unfold processMessage.
  destruct (frameEvent msg) as [event|]; [|done].
  by destruct (findEventModel self event) as [[type props]|].
Qed.

(** X3. A frame that goes through [processMessage] a second time changes
    the client no further. *)
Theorem same_frame_twice self msg :
  client (processMessage (client (processMessage self msg)) msg)
  = client (processMessage self msg).
Proof.
  assert (∀ e, processMessage self msg = throw self e →
    client (processMessage (client (processMessage self msg)) msg)
    = client (processMessage self msg)) as Hthrow.
  { intros e H. rewrite H. simpl. by rewrite H. }
  destruct (frameEvent msg) as [event|] eqn:Hev;
    [|apply (Hthrow SyntaxError); unfold processMessage; by rewrite Hev].
  destruct (findEventModel self event) as [[type props]|] eqn:Hfind;
    [|apply (Hthrow TypeError); unfold processMessage;
      by rewrite Hev, Hfind].
  clear Hthrow.
  assert (get event "type" = Some (JStr type)
          ∧ eventModels self !! type = Some props) as [Hty Hmodel].
  { unfold findEventModel in Hfind.
    destruct (get event "type") as [[| | |ty| |]|]; try done.
    destruct (eventModels self !! ty) eqn:E; [|done].
    by injection Hfind as -> ->. }
  set (self1 := client (processMessage self msg)).
  assert (eventModels self1 !! type = Some props) as Hmodel1.
  { subst self1. by rewrite eventModels_processMessage. }
  assert (instanceListeners (client (processMessage self1 msg))
          = instanceListeners self1) as Htable.
  { apply map_eq. intros k.
    rewrite (listeners_after_frame self1 msg event type props k)
      by done.
    destruct (decide (k = type)) as [->|Hne]; [|done].
    subst self1.
    rewrite (listeners_after_frame self msg event type props type)
      by done.
    rewrite decide_True by done.
    destruct (instanceListeners self !! type); simpl; [|done].
    by rewrite remaining_idemp. }
  rewrite (processMessage_dispatch self1 _ _ _ _ Hev Hty Hmodel1) in *.
  simpl in *. rewrite Htable. by destruct self1.
Qed.

(** X4. Every emission of a frame carries the event and the same
    [resources] argument: the global emission comes first, and each of the
    others is a scoped emission with the arguments of the global one. *)
Theorem scoped_emissions_share_arguments self msg event type props :
  frameEvent msg = Some event →
  get event "type" = Some (JStr type) →
  eventModels self !! type = Some props →
  ∃ resources rest,
    actions (processMessage self msg)
    = Emit type (EventArgs event resources) :: rest
    ∧ Forall (λ a, ∃ x, x ∈ promotedIds event props
                     ∧ a = Emit (scopedName type x)
                             (EventArgs event resources)) rest.
Proof.
  intros Hev Hty Hmodel.
  rewrite (processMessage_dispatch _ _ _ _ _ Hev Hty Hmodel). simpl.
  eexists _, _. split; [done|].
  apply Forall_fmap, Forall_forall. intros x Hx. simpl.
  exists x. split; [|done].
  apply loop_instanceIds_elem in Hx as [Hx|[Hx _]]; [|done].
  by apply not_elem_of_nil in Hx.
Qed.

(** X5. A frame of a type under which no listener list exists emits
    globally and nothing else, and leaves the client as it was. *)
Theorem frame_without_listener_list self msg event type props :
  frameEvent msg = Some event →
  get event "type" = Some (JStr type) →
  eventModels self !! type = Some props →
  instanceListeners self !! type = None →
  client (processMessage self msg) = self
  ∧ ∃ resources,
      actions (processMessage self msg)
      = [Emit type (EventArgs event resources)].
Proof.
  intros Hev Hty Hmodel Hnone.
  assert (instanceListeners (client (processMessage self msg))
          = instanceListeners self) as Htable.
  { apply map_eq. intros k.
    rewrite (listeners_after_frame self msg event type props k) by done.
    destruct (decide (k = type)) as [->|]; [|done]. by rewrite Hnone. }
  pose proof (loop_instanceIds_elem type event props
                {| d_resources := ∅; d_instanceIds := [];
                   d_listeners := instanceListeners self |}) as Hids.
  simpl in Hids. rewrite Hnone in Hids. simpl in Hids.
  rewrite (processMessage_dispatch _ _ _ _ _ Hev Hty Hmodel) in *.
  simpl in *. split.
  - rewrite Htable. by destruct self.
  - eexists. f_equal.
    destruct (d_instanceIds _) as [|x ids]; [done|].
    exfalso. destruct (proj1 (Hids x)) as [H|(_ & l & H & _)];
      [left|..]; by apply not_elem_of_nil in H.
Qed.

Lemma processMessage_keeps_always self msg type l :
  l ∈ listenersOf self type → l_once l = false →
  l ∈ listenersOf (client (processMessage self msg)) type.
Proof.
  intros Hl Honce. unfold processMessage.
  destruct (frameEvent msg) as [event|]; [|done].
  unfold findEventModel.
  destruct (get event "type") as [[| | |ty| |]|]; try done.
  destruct (eventModels self !! ty) as [props|]; [|done].
  unfold listenersOf in *. simpl.
  destruct (decide (type = ty)) as [->|Hne].
  - rewrite loop_listeners. simpl.
    destruct (instanceListeners self !! ty); simpl in *; [|done].
    apply elem_of_filtered. split; [done|]. intros x _.
    unfold stays. rewrite Honce. by rewrite andb_false_r.
  - by rewrite loop_listeners_ne.
Qed.

(** X6. A listener that is not a [once] listener stays in the table
    through any frames. *)
Theorem lasting_listener_survives frames : ∀ self type l,
  l ∈ listenersOf self type → l_once l = false →
  l ∈ listenersOf (afterFrames self frames) type.
Proof.
  induction frames as [|msg frames IH]; intros self type l Hl Honce; [done|].
  simpl. apply IH; [|done]. by apply processMessage_keeps_always.
Qed.

End DemultiplexerMore.

(** ** More on the WebSocket handlers *)

Section TransportMore.
Context `{RM : ResourcesModule} `{BM : BackoffModule}.

Lemma processMessage_emits_events self msg :
  Forall (λ a, ∃ name event resources,
            a = Emit name (EventArgs event resources))
    (actions (processMessage self msg)).
Proof.
  unfold processMessage.
  destruct (frameEvent msg) as [event|]; [|apply Forall_nil_2].
  destruct (findEventModel self event) as [[type props]|];
    [|apply Forall_nil_2].
  simpl. apply Forall_cons. split; [eauto|].
  destruct (Nat.ltb _ _); [|apply Forall_nil_2].
  apply Forall_fmap, Forall_forall. intros x _. simpl. eauto.
Qed.

Lemma filter_events_nil (p : Action → bool) (acts : list Action) :
  (∀ name event resources, p (Emit name (EventArgs event resources)) = false) →
  Forall (λ a, ∃ name event resources,
            a = Emit name (EventArgs event resources)) acts →
  List.filter p acts = [].
Proof.
  intros Hp. induction 1 as [|a acts (name & event & resources & ->) _ IH];
    [done|].
  simpl. by rewrite Hp.
Qed.

Lemma handle_refusals st ev :
  length (List.filter isMaxRetries (handle st ev).2)
  = length (List.filter isRefusal (handle st ev).2).
Proof.
  destruct st as [self s]. destruct ev; simpl.
  - rewrite !filter_events_nil; auto using processMessage_emits_events.
  - done.
  - unfold processClose, reconnect. simpl.
    destruct (wsClosed self); [done|].
    destruct (processingError s); [done|]. simpl.
    by destruct (backoff_call (retry s)).1.
  - unfold processError, reconnect. simpl.
    destruct (wsClosed self); [done|]. simpl.
    by destruct (backoff_call (retry s)).1.
  - done.
  - unfold stop. by destruct (ws self).
Qed.

(** X7. Through any events, [WebSocketMaxRetries] is announced as many
    times as the backoff refused a call: once for each refusal, and never
    otherwise. *)
Theorem max_retries_counts_refusals evs : ∀ st,
  length (List.filter isMaxRetries (run st evs).2)
  = length (List.filter isRefusal (run st evs).2).
Proof.
  induction evs as [|ev evs IH]; intros st; [done|].
  simpl. rewrite !List.filter_app, !length_app.
  by rewrite handle_refusals, IH.
Qed.

Lemma handle_retries_drop st ev :
  length (retries (handle st ev).2) ≤ (if isDrop ev then 1 else 0).
Proof.
  destruct ev; simpl.
  - by rewrite retries_processMessage.
  - done.
  - apply (proj2 (handle_retry st OnClose)).
  - apply (proj2 (handle_retry st (OnError err))).
  - done.
  - unfold stop. by destruct (ws st.1).
Qed.

(** X8. The backoff is called at most once for each close or error event:
    messages, opens, the backoff timer and [stop] never call it. *)
Theorem backoff_calls_bounded_by_drops evs : ∀ st,
  length (retries (run st evs).2) ≤ length (List.filter isDrop evs).
Proof.
  induction evs as [|ev evs IH]; intros st; [done|].
  simpl. rewrite retries_app, length_app.
  pose proof (handle_retries_drop st ev) as Hev.
  specialize (IH (handle st ev).1).
  destruct (isDrop ev); simpl; lia.
Qed.

(** X9. [start] does not clear the mark of [stop]: when a client is started
    while the mark is still set, nothing up to and including the first close
    calls the backoff, and that close clears the mark. *)
Theorem start_keeps_stale_mark self h u p apps pre :
  wsClosed self = true →
  Forall (λ ev, ev ≠ OnClose) pre →
  retries (run (start self h u p apps).1 (pre ++ [OnClose])).2 = []
  ∧ wsClosed (run (start self h u p apps).1 (pre ++ [OnClose])).1.1 = false.
Proof.
  intros Hmark Hpre.
  assert (wsClosed (start self h u p apps).1.1 = true) as Hstart by done.
  revert Hstart. generalize (start self h u p apps).1. intros st Hst.
  destruct (run_while_closed pre st Hst Hpre) as [Hc Hr].
  rewrite run_app. cbn [fst snd]. rewrite retries_app, Hr. simpl.
  unfold processClose. by rewrite Hc.
Qed.





(** X11. The error handler does not look at the error flag: on a client
    that was not stopped, each of any number of errors in a row calls the
    backoff. *)
Theorem every_error_calls_backoff errs : ∀ st,
  wsClosed st.1 = false →
  length (retries (run st (OnError <$> errs)).2) = length errs.
Proof.
  induction errs as [|err errs IH]; intros [self s] Hopen; [done|].
  simpl in *. rewrite retries_app, length_app, IH.
  - unfold processError, reconnect. simpl. rewrite Hopen. simpl.
    by destruct (backoff_call (retry s)).1.
  - unfold processError. simpl. by rewrite Hopen.
Qed.

Lemma run_messages frames : ∀ st,
  (run st (OnMessage <$> frames)).1.2 = st.2
  ∧ wsClosed (run st (OnMessage <$> frames)).1.1 = wsClosed st.1
  ∧ retries (run st (OnMessage <$> frames)).2 = [].
Proof.
  induction frames as [|msg frames IH]; intros st; [done|].
  rewrite fmap_cons. cbn [run handle fst snd].
  destruct (IH (client (processMessage st.1 msg), st.2))
    as (Hs & Hc & Hr).
  rewrite Hs, Hc, retries_app, Hr, retries_processMessage.
  cbn [fst snd]. by rewrite wsClosed_processMessage.
Qed.

(** X12. Once a socket has opened, the close of a client that was not
    stopped calls the backoff exactly once, whatever errors came before the
    open and whatever frames arrived after it. *)
Theorem close_after_open_reconnects st frames :
  wsClosed st.1 = false →
  ∃ scheduled,
    retries (run st (OnOpen :: (OnMessage <$> frames) ++ [OnClose])).2
    = [Retry scheduled].
Proof.
  intros Hopen. cbn [run handle processOpen fst snd app].
  rewrite run_app. cbn [fst snd].
  destruct (run_messages frames (st.1, set_processingError false st.2))
    as (Hs & Hc & Hr).
  rewrite retries_app, Hr. cbn [run handle fst snd app].
  unfold processClose, reconnect. rewrite Hc, Hs. simpl. rewrite Hopen.
  exists (backoff_call (retry st.2)).1. cbn [fst snd].
  rewrite app_nil_r. simpl.
  by destruct (backoff_call (retry st.2)).1.
Qed.

Lemma processMessage_global self msg :
  omap globalEmission (actions (processMessage self msg))
  = option_list (frameType self msg).
Proof.
  unfold processMessage, frameType.
  destruct (frameEvent msg) as [event|]; [|done].
  destruct (findEventModel self event) as [[type props]|] eqn:Hfind; [|done].
  assert (get event "type" = Some (JStr type)) as Hty.
  { unfold findEventModel in Hfind.
    destruct (get event "type") as [[| | |ty| |]|]; try done.
    destruct (eventModels self !! ty); [|done]. by injection Hfind as -> _. }
  simpl. rewrite Hty, String.eqb_refl. f_equal.
  destruct (Nat.ltb _ _); [|done].
  induction (d_instanceIds _) as [|x ids IH]; [done|].
  simpl. rewrite Hty.
  destruct (String.eqb_spec (scopedName type x) type) as [E|_]; [|done].
  symmetry in E. by apply scopedName_ne in E.
Qed.

Lemma frameType_eventModels self self' msg :
  eventModels self = eventModels self' →
  frameType self msg = frameType self' msg.
Proof.
  intros H. unfold frameType, findEventModel. by rewrite H.
Qed.

(** X22. Frames are emitted globally in the order they arrive: the global
    emissions of a sequence of frames are, in order, the types of the frames
    that have a model; a frame that is not JSON or has no model adds
    none. *)
Theorem global_emissions_follow_arrival frames : ∀ st,
  omap globalEmission (run st (OnMessage <$> frames)).2
  = omap (frameType st.1) frames.
Proof.
  induction frames as [|msg frames IH]; intros st; [done|].
  rewrite fmap_cons. cbn [run handle fst snd].
  rewrite omap_app, processMessage_global, IH. cbn [fst snd omap].
  rewrite (list_omap_ext (frameType (client (processMessage st.1 msg)))
             (frameType st.1) frames frames).
  - simpl. by destruct (frameType st.1 msg).
  - apply Forall_Forall2_diag, Forall_forall. intros m _.
    apply frameType_eventModels, eventModels_processMessage.
Qed.

End TransportMore.

(** ** More on the operation binding *)

Section OperationMore.
Context `{RM : ResourcesModule} `{OM : OperationModules}.

(** X13. An operation changes no object that existed before the call,
    whatever it is called with, given that the helper and the swagger
    operation write only to the options they are handed: the objects the
    caller's options refer to are as safe as the options themselves. *)
Theorem callSwagger_keeps_every_object oper (h : Heap) args l :
  (∀ resource operation,
     writesOnlyTo (swaggerOperation resource operation)) →
  (∀ params, writesOnlyTo (λ h v, (parseBodyParams params h v).1)
             ∧ returnsOwnOrNew (parseBodyParams params)) →
  is_Some (h !! l) →
  c_heap (callSwagger oper h args) !! l = h !! l.
Proof.
  intros Hswagger Hparse Hlive.
  assert (fresh (dom h) ≠ l) as Hfresh.
  { intros <-. apply elem_of_dom in Hlive. by apply is_fresh in Hlive. }
  destruct (Hparse (op_parameters oper)) as [Hwrites Hreturns].
  unfold callSwagger. simpl.
  destruct (isAbsent (first args) || isFunction (first args)
            || isArray (first args)) eqn:Hcond; simpl.
  - rewrite Hswagger.
    + by rewrite lookup_insert_ne.
    + by rewrite lookup_insert_ne.
    + simpl. congruence.
  - set (c := clone h (first args)).
    assert (c.1 !! l = h !! l ∧ target c.2 ≠ Some l) as [Hh1 Hc2].
    { subst c. unfold clone. destruct (first args); simpl in *;
        (split; [first [done|by rewrite lookup_insert_ne]
                |first [done|congruence]]). }
    assert ((parseBodyParams (op_parameters oper) c.1 c.2).1 !! l = h !! l)
      as Hh2.
    { rewrite <- Hh1. apply (Hwrites c.1); [by rewrite Hh1|done]. }
    rewrite Hswagger; [done|by rewrite Hh2|].
    intros Hret. apply Hreturns in Hret; [done|by rewrite Hh1].
Qed.

Local Set Warnings "-clear-no-such-hyp".

(** X14. With a callback, the success handler either calls it once, with no
    error and a result, or raises the syntax error of [JSON.parse] and calls
    nothing; it raises exactly when the operation's type is not [null] and
    the body is a non-empty text that is not JSON. *)
Theorem processResponse_calls_or_raises oper f data :
  let r := processResponse oper (VFunction f) data in
  (raised r = Some SyntaxError
   ↔ (respType oper).1 ≠ TNull ∧ truthy (text data) = true
     ∧ parsed data = None)
  ∧ (raised r = Some SyntaxError → calls r = [])
  ∧ (raised r ≠ Some SyntaxError →
     raised r = None
     ∧ ∃ result, calls r = [{| u_callback := f; u_err := ENull;
                               u_result := Some result |}]).
Proof.
  unfold processResponse.
  destruct (respType oper).1 eqn:Ht; simpl;
    destruct (truthy (text data)); simpl;
    try destruct (parsed data); simpl; naive_solver.
Qed.

(** X15. The success handler of an operation whose type is a list of a
    known resource type gives the callback one instance for each element of
    the array in the body, in their order. *)
Theorem list_response_gives_instances oper f data type element factory l :
  op_type oper = TName type →
  swaggerListTypeRegex type = Some element →
  element ∈ knownTypes →
  resourceFactory element = Some factory →
  truthy (text data) = true →
  parsed data = Some (JArr l) →
  processResponse oper (VFunction f) data
  = {| calls := [{| u_callback := f; u_err := ENull;
                    u_result := Some (Many (factory <$> l)) |}];
       raised := None |}.
Proof.
  intros Hty Hlist Hknown Hfactory Htext Hparsed.
  unfold processResponse, respType, isKnown.
  rewrite Hty, Hlist. simpl.
  rewrite Htext, Hparsed. simpl.
  by rewrite bool_decide_eq_true_2, Hfactory.
Qed.

(** X16. A call whose first argument is absent, a function or an array
    sends the same options, to the same effect, as a call without any
    argument: the swagger operation runs on a new object, one the heap did
    not hold, that has no field. *)
Theorem optionless_call_sends_empty_options oper (h : Heap) args :
  isAbsent (first args) || isFunction (first args) || isArray (first args)
    = true →
  c_options (callSwagger oper h args) = VObject (fresh (dom h))
  ∧ h !! fresh (dom h) = None
  ∧ c_heap (callSwagger oper h args)
    = swaggerOperation (op_resource oper) (op_name oper)
        (<[fresh (dom h) := ∅]> h) (VObject (fresh (dom h)))
  ∧ c_options (callSwagger oper h args) = c_options (callSwagger oper h [])
  ∧ c_heap (callSwagger oper h args) = c_heap (callSwagger oper h []).
Proof.
  intros Hfirst. unfold callSwagger. rewrite Hfirst. simpl.
  split_and!; try done.
  apply not_elem_of_dom, is_fresh.
Qed.

End OperationMore.

(** ** [_attachApi] and [connect] *)

Section AttachProperties.
Context `{RM : ResourcesModule}.

(** A loop that sets one key for each entry of a list with distinct keys. *)
Lemma foldl_insert_out {A B} (f : string * A → B) (l : list (string * A)) :
  ∀ (m : gmap string B) k,
  k ∉ l.*1 → foldl (λ m e, <[e.1 := f e]> m) m l !! k = m !! k.
Proof.
  induction l as [|e l IH]; intros m k Hk; [done|].
  simpl in *. apply not_elem_of_cons in Hk as [Hne Hk].
  rewrite IH by done. by rewrite lookup_insert_ne.
Qed.

Lemma foldl_insert_in {A B} (f : string * A → B) (l : list (string * A)) :
  ∀ (m : gmap string B) k a,
  NoDup l.*1 → (k, a) ∈ l →
  foldl (λ m e, <[e.1 := f e]> m) m l !! k = Some (f (k, a)).
Proof.
  induction l as [|e l IH]; intros m k a Hnd Hin.
  - by apply not_elem_of_nil in Hin.
  - simpl in *. apply NoDup_cons in Hnd as [Hnotin Hnd].
    apply elem_of_cons in Hin as [<-|Hin].
    + rewrite foldl_insert_out by done. by rewrite lookup_insert_eq.
    + by eapply IH.
Qed.

Lemma attachResource_fold apis (members : gmap string Member) k :
  foldl attachResource members (map_to_list apis) !! k
  = match apis !! k with
    | Some operations =>
        Some (MResource (foldl (attachOperation k) ∅
                           (map_to_list operations)))
    | None => members !! k
    end.
Proof.
  unfold attachResource.
  destruct (apis !! k) as [operations|] eqn:E.
  - apply elem_of_map_to_list in E.
    by rewrite (foldl_insert_in
                  (λ e, MResource (foldl (attachOperation e.1) ∅
                                     (map_to_list e.2)))
                  _ _ k operations (NoDup_fst_map_to_list _) E).
  - apply foldl_insert_out.
    intros ((k' & a) & -> & Hin)%list_elem_of_fmap.
    apply elem_of_map_to_list in Hin. simpl in E. congruence.
Qed.

Lemma attachOperation_fold resource (operations : gmap string OperSpec) k :
  foldl (attachOperation resource) ∅ (map_to_list operations) !! k
  = (λ spec, {| op_resource := resource; op_name := k;
                op_type := spec_type spec;
                op_parameters := spec_parameters spec |})
    <$> operations !! k.
Proof.
  unfold attachOperation.
  destruct (operations !! k) as [spec|] eqn:E; simpl.
  - apply elem_of_map_to_list in E.
    by rewrite (foldl_insert_in
                  (λ e, {| op_resource := resource; op_name := e.1;
                           op_type := spec_type e.2;
                           op_parameters := spec_parameters e.2 |})
                  _ _ k spec (NoDup_fst_map_to_list _) E).
  - rewrite foldl_insert_out; [done|].
    intros ((k' & a) & -> & Hin)%list_elem_of_fmap.
    apply elem_of_map_to_list in Hin. simpl in E. congruence.
Qed.

Lemma attachResourceCreators_fold types : ∀ (members : gmap string Member) k,
  foldl attachResourceCreators members types !! k
  = if bool_decide (k ∈ types) then Some (MCreator k) else members !! k.
Proof.
  induction types as [|t types IH]; intros members k; simpl.
  - done.
  - rewrite IH. unfold attachResourceCreators.
    destruct (decide (k ∈ types)) as [Hin|Hnotin].
    + rewrite !bool_decide_eq_true_2; [done|by right|done].
    + rewrite (bool_decide_eq_false_2 _ Hnotin).
      destruct (decide (k = t)) as [->|Hne].
      * rewrite bool_decide_eq_true_2 by left. by rewrite lookup_insert_eq.
      * rewrite bool_decide_eq_false_2
          by (intros [?|?]%elem_of_cons; done).
        by rewrite lookup_insert_ne.
Qed.

(** What a ready load leaves under each name. *)
Lemma swaggerLoaded_lookup cb apis (members : gmap string Member) k :
  a_members (swaggerLoaded true cb apis members) !! k
  = if bool_decide (k ∈ knownTypes) then Some (MCreator k)
    else match apis !! k with
         | Some operations =>
             Some (MResource (foldl (attachOperation k) ∅
                                (map_to_list operations)))
         | None => members !! k
         end.
Proof.
  unfold swaggerLoaded. simpl.
  by rewrite attachResourceCreators_fold, attachResource_fold.
Qed.

(** X17. After a ready load, every operation of every resource of the
    description is exposed under the resource's name and its own, bound to
    that resource, that name, and the type and parameters the description
    gives, provided the resource is not named like a known resource
    type. *)
Theorem loaded_api_exposes_operations
    cb apis members resource operations operation spec :
  apis !! resource = Some operations →
  operations !! operation = Some spec →
  resource ∉ knownTypes →
  exposed (a_members (swaggerLoaded true cb apis members)) resource operation
  = Some {| op_resource := resource; op_name := operation;
            op_type := spec_type spec;
            op_parameters := spec_parameters spec |}.
Proof.
  intros Hres Hop Hname. unfold exposed.
  rewrite swaggerLoaded_lookup, bool_decide_eq_false_2, Hres by done.
  by rewrite attachOperation_fold, Hop.
Qed.

(** X18. After a ready load, the name of every known resource type holds
    the creator of that type, also when the description has a resource of
    that name: the creators are attached last. *)
Theorem loaded_api_has_creators cb apis members type :
  type ∈ knownTypes →
  a_members (swaggerLoaded true cb apis members) !! type
  = Some (MCreator type).
Proof.
  intros Hin. by rewrite swaggerLoaded_lookup, bool_decide_eq_true_2.
Qed.

(** X19. A ready load touches no name but those of the description's
    resources and of the known resource types, and exposes no operation the
    description does not have. *)
Theorem loaded_api_attaches_nothing_else cb apis members :
  (∀ k, apis !! k = None → k ∉ knownTypes →
        a_members (swaggerLoaded true cb apis members) !! k = members !! k)
  ∧ ∀ resource operation oper,
      members !! resource = None →
      exposed (a_members (swaggerLoaded true cb apis members))
        resource operation = Some oper →
      ∃ operations spec,
        apis !! resource = Some operations
        ∧ operations !! operation = Some spec
        ∧ op_resource oper = resource ∧ op_name oper = operation.
Proof.
  split.
  - intros k Hnone Hname.
    by rewrite swaggerLoaded_lookup, bool_decide_eq_false_2, Hnone.
  - intros resource operation oper Hfree. unfold exposed.
    rewrite swaggerLoaded_lookup.
    case_bool_decide; [done|].
    destruct (apis !! resource) as [operations|]; [|by rewrite Hfree].
    rewrite attachOperation_fold.
    destruct (operations !! operation) as [spec|] eqn:Hop; [|done].
    simpl. intros [= <-]. by exists operations, spec.
Qed.

(** X20. [connect] without a function as callback throws once swagger has
    answered, after a failed load as after a ready one, and by then the
    client has emitted and been given what it would have with a
    callback. *)
Theorem connect_without_callback_throws callback answer :
  isFunction callback = false →
  (∀ apis, answer ≠ Loaded false apis) →
  let k := connectClient callback answer in
  k_thrown k = Some "No callback provided to connect()"
  ∧ k_called k = None
  ∧ ∀ f, k_members k = k_members (connectClient (VFunction f) answer)
         ∧ k_emitted k = k_emitted (connectClient (VFunction f) answer)
         ∧ k_thrown (connectClient (VFunction f) answer) = None.
Proof.
  intros Hcb Hready. unfold connectClient.
  destruct answer as [[] apis|err]; simpl.
  - by destruct callback.
  - by destruct (Hready apis).
  - by destruct callback.
Qed.

(** X21. [connect] with a callback calls it exactly when swagger answered
    with a failure or a ready load; it passes the error of the failure,
    which the client has announced as [APILoadError] with nothing attached,
    and no error after a ready load, which announces nothing. A load that
    succeeds while swagger is not ready attaches nothing, announces nothing
    and calls nothing. *)
Theorem connect_reports_the_load f answer :
  let k := connectClient (VFunction f) answer in
  k_thrown k = None
  ∧ match answer with
    | Failed err =>
        k_called k = Some (f, Some err)
        ∧ k_emitted k = [Emit "APILoadError" (ErrorArg (Some err))]
        ∧ k_members k = ∅
    | Loaded true apis =>
        k_called k = Some (f, None) ∧ k_emitted k = []
        ∧ ∀ type, type ∈ knownTypes → k_members k !! type = Some (MCreator type)
    | Loaded false _ =>
        k_called k = None ∧ k_emitted k = [] ∧ k_members k = ∅
    end.
Proof.
  destruct answer as [[] apis|err]; simpl; split_and!; try done.
  intros type Hin.
  by apply (loaded_api_has_creators true apis ∅ type).
Qed.

End AttachProperties.

(** ** Scoped listeners on the emitter *)

Local Set Warnings "-clear-no-such-hyp".

Section ScopedListenerProperties.
Context `{RM : ResourcesModule}.

Local Arguments emit : simpl never.

Lemma timesCalled_app cb (a b : list nat) :
  timesCalled cb (a ++ b) = timesCalled cb a + timesCalled cb b.
Proof. unfold timesCalled. by rewrite List.filter_app, length_app. Qed.

Lemma emit_sub name (reg : list Registration) r :
  r ∈ (emit name reg).1 → r ∈ reg.
Proof.
  unfold emit. simpl.
  intros [H _]%list_elem_of_In%filter_In. by apply list_elem_of_In.
Qed.

Lemma fire_sub acts : ∀ (reg : list Registration) r,
  r ∈ (fire reg acts).1 → r ∈ reg.
Proof.
  induction acts as [|a acts IH]; intros reg r; [done|].
  destruct a; cbn [fire fst snd]; try apply IH.
  intros H%IH. by eapply emit_sub.
Qed.

(** An emission calls a callback that is registered by [once] only as many
    times as it takes registrations of it away. *)
Lemma emit_registrations cb name (reg : list Registration) :
  Forall (λ r, r_callback r = cb → r_once r = true) reg →
  timesCalled cb (emit name reg).2 + registrationsOf cb (emit name reg).1
  = registrationsOf cb reg.
Proof.
  unfold emit, timesCalled, registrationsOf. simpl.
  induction 1 as [|r reg Hr _ IH]; [done|]. simpl.
  destruct (String.eqb (r_name r) name); destruct (r_once r) eqn:Ho;
    destruct (Nat.eqb_spec (r_callback r) cb) as [E|E];
    try (specialize (Hr E); discriminate); simpl;
    destruct (Nat.eqb_spec cb (r_callback r)) as [E'|E'];
    try congruence; simpl;
    try (destruct (Nat.eqb_spec (r_callback r) cb); [|congruence]);
    try (destruct (Nat.eqb_spec (r_callback r) cb); [congruence|]);
    unfold fmap in *; simpl in *; lia.
Qed.

Lemma fire_registrations cb acts : ∀ reg : list Registration,
  Forall (λ r, r_callback r = cb → r_once r = true) reg →
  timesCalled cb (fire reg acts).2 + registrationsOf cb (fire reg acts).1
  = registrationsOf cb reg.
Proof.
  induction acts as [|a acts IH]; intros reg Hreg; [done|].
  destruct a; cbn [fire fst snd]; try by apply IH.
  rewrite timesCalled_app, <- (emit_registrations cb name reg Hreg).
  rewrite <- (IH (emit name reg).1); [lia|].
  apply Forall_forall. intros r Hr%emit_sub.
  by apply (proj1 (Forall_forall _ _) Hreg).
Qed.

Lemma deliverAll_sub frames : ∀ (st : Client * list Registration) r,
  r ∈ (deliverAll st frames).1.2 → r ∈ st.2.
Proof.
  induction frames as [|msg frames IH]; intros st r; [done|].
  simpl. intros H%IH. simpl in H. by eapply fire_sub.
Qed.

Lemma deliverAll_registrations cb frames :
  ∀ st : Client * list Registration,
  Forall (λ r, r_callback r = cb → r_once r = true) st.2 →
  timesCalled cb (deliverAll st frames).2
  + registrationsOf cb (deliverAll st frames).1.2
  = registrationsOf cb st.2.
Proof.
  induction frames as [|msg frames IH]; intros st Hreg; [done|].
  cbn [deliverAll fst snd]. rewrite timesCalled_app.
  pose proof (fire_registrations cb (actions (processMessage st.1 msg))
                st.2 Hreg) as Hfire.
  assert (Forall (λ r, r_callback r = cb → r_once r = true)
            (deliver st msg).1.2) as Hreg'.
  { apply Forall_forall. intros r Hr. unfold deliver in Hr.
    cbn [fst snd] in Hr. apply fire_sub in Hr.
    by apply (proj1 (Forall_forall _ _) Hreg). }
  pose proof (IH (deliver st msg).1 Hreg') as Hrest.
  unfold deliver in *. cbn [fst snd] in *. lia.
Qed.

(** An emission under the one name a callback is registered by [once] under
    takes all its registrations away. *)
Lemma fire_emptied cb name acts : ∀ reg : list Registration,
  Forall (λ r, r_callback r = cb → r_name r = name ∧ r_once r = true) reg →
  (∃ args, Emit name args ∈ acts) →
  registrationsOf cb (fire reg acts).1 = 0.
Proof.
  assert (∀ reg : list Registration,
    Forall (λ r, r_callback r = cb → r_name r = name ∧ r_once r = true) reg →
    Forall (λ r, r_callback r = cb → r_once r = true) reg) as Hweak.
  { intros reg H. eapply Forall_impl; [exact H|]. naive_solver. }
  induction acts as [|a acts IH]; intros reg Hreg [args Hin].
  { by apply not_elem_of_nil in Hin. }
  assert (∀ n, Forall (λ r, r_callback r = cb
                            → r_name r = name ∧ r_once r = true)
                 (emit n reg).1) as Hemit.
  { intros n. apply Forall_forall. intros r Hr%emit_sub.
    by apply (proj1 (Forall_forall _ _) Hreg). }
  apply elem_of_cons in Hin as [<-|Hin].
  - cbn [fire fst snd].
    assert (registrationsOf cb (emit name reg).1 = 0) as Hzero.
    { unfold emit, registrationsOf. simpl. clear -Hreg.
      induction Hreg as [|r reg Hr _ IHreg]; [done|]. simpl.
      destruct (Nat.eqb_spec (r_callback r) cb) as [E|E].
      - destruct (Hr E) as [-> ->]. by rewrite String.eqb_refl.
      - destruct (negb _); simpl; [|done].
        by destruct (Nat.eqb_spec (r_callback r) cb). }
    pose proof (fire_registrations cb acts (emit name reg).1
                  (Hweak _ (Hemit name))). lia.
  - destruct a; cbn [fire fst snd]; apply IH; eauto.
Qed.

Lemma eventModels_afterFrames frames : ∀ self,
  eventModels (afterFrames self frames) = eventModels self.
Proof.
  induction frames as [|msg frames IH]; intros self; [done|].
  simpl. by rewrite IH, eventModels_processMessage.
Qed.

Lemma deliverAll_client frames : ∀ st : Client * list Registration,
  (deliverAll st frames).1.1 = afterFrames st.1 frames.
Proof.
  induction frames as [|msg frames IH]; intros st; [done|].
  simpl. by rewrite IH.
Qed.

Lemma deliverAll_app a b (st : Client * list Registration) :
  deliverAll st (a ++ b)
  = ((deliverAll (deliverAll st a).1 b).1,
     (deliverAll st a).2 ++ (deliverAll (deliverAll st a).1 b).2).
Proof.
  revert st. induction a as [|msg a IH]; intros st; simpl.
  - by destruct (deliverAll st b).
  - rewrite IH. simpl. by rewrite app_assoc.
Qed.

(** As long as the callback is registered, a listener for the identity is
    in the table under the type: a frame that takes the listener away emits
    under the scoped name. *)
Lemma deliver_keeps_listener cb type x (st : Client * list Registration) msg :
  Forall (λ r, r_callback r = cb
               → r_name r = scopedName type x ∧ r_once r = true) st.2 →
  (registrationsOf cb st.2 ≠ 0 →
   ∃ l, l ∈ listenersOf st.1 type ∧ l_id l = x) →
  registrationsOf cb (deliver st msg).1.2 ≠ 0 →
  ∃ l, l ∈ listenersOf (deliver st msg).1.1 type ∧ l_id l = x.
Proof.
  intros Hreg Hlistener Hleft. simpl in *.
  assert (Forall (λ r, r_callback r = cb → r_once r = true) st.2) as Honce.
  { eapply Forall_impl; [exact Hreg|]. naive_solver. }
  destruct Hlistener as (l & Hl & Hid).
  { pose proof (fire_registrations cb (actions (processMessage st.1 msg))
                  st.2 Honce). lia. }
  assert (¬ ∃ args, Emit (scopedName type x) args
                    ∈ actions (processMessage st.1 msg)) as Hquiet.
  { intros Hemit. by apply (fire_emptied cb _ _ st.2 Hreg) in Hemit. }
  exists l. split; [|done].
  destruct (frameEvent msg) as [event|] eqn:Hev;
    [|unfold processMessage; by rewrite Hev].
  destruct (findEventModel st.1 event) as [[ty props]|] eqn:Hfind;
    [|unfold processMessage; by rewrite Hev, Hfind].
  assert (get event "type" = Some (JStr ty)
          ∧ eventModels st.1 !! ty = Some props) as [Hty Hmodel].
  { unfold findEventModel in Hfind.
    destruct (get event "type") as [[| | |ty'| |]|]; try done.
    destruct (eventModels st.1 !! ty') eqn:E; [|done].
    by injection Hfind as -> ->. }
  rewrite (processMessage_dispatch _ _ _ _ _ Hev Hty Hmodel) in *.
  simpl in *. unfold listenersOf in *. simpl.
  destruct (decide (type = ty)) as [<-|Hne];
    [|by rewrite loop_listeners_ne].
  rewrite loop_listeners. simpl.
  destruct (instanceListeners st.1 !! type) as [ls|] eqn:Els;
    simpl in *; [|done].
  apply elem_of_filtered. split; [done|].
  intros y Hy. apply stays_other. intros Heq. apply Hquiet.
  eexists. right. apply list_elem_of_fmap. exists x. split; [done|].
  apply loop_instanceIds_elem. right. simpl. rewrite Els. simpl.
  split; [congruence|eauto].
Qed.

Lemma deliverAll_keeps_listener cb type x frames :
  ∀ st : Client * list Registration,
  Forall (λ r, r_callback r = cb
               → r_name r = scopedName type x ∧ r_once r = true) st.2 →
  (registrationsOf cb st.2 ≠ 0 →
   ∃ l, l ∈ listenersOf st.1 type ∧ l_id l = x) →
  registrationsOf cb (deliverAll st frames).1.2 ≠ 0 →
  ∃ l, l ∈ listenersOf (deliverAll st frames).1.1 type ∧ l_id l = x.
Proof.
  induction frames as [|msg frames IH]; intros st Hreg Hlistener; [done|].
  simpl. apply IH.
  - apply Forall_forall. intros r Hr. simpl in Hr. apply fire_sub in Hr.
    by apply (proj1 (Forall_forall _ _) Hreg).
  - by apply deliver_keeps_listener.
Qed.

(** A frame of the type that promotes the identity takes the callback off
    the emitter, if it was still there. *)
Lemma deliver_takes_callback
    cb type x (st : Client * list Registration) msg event props :
  Forall (λ r, r_callback r = cb
               → r_name r = scopedName type x ∧ r_once r = true) st.2 →
  (registrationsOf cb st.2 ≠ 0 →
   ∃ l, l ∈ listenersOf st.1 type ∧ l_id l = x) →
  frameEvent msg = Some event →
  get event "type" = Some (JStr type) →
  eventModels st.1 !! type = Some props →
  x ∈ promotedIds event props →
  registrationsOf cb (deliver st msg).1.2 = 0.
Proof.
  intros Hreg Hlistener Hev Hty Hmodel Hx. simpl.
  assert (Forall (λ r, r_callback r = cb → r_once r = true) st.2) as Honce.
  { eapply Forall_impl; [exact Hreg|]. naive_solver. }
  destruct (decide (registrationsOf cb st.2 = 0)) as [Hzero|Hsome].
  { pose proof (fire_registrations cb (actions (processMessage st.1 msg))
                  st.2 Honce). lia. }
  destruct (Hlistener Hsome) as (l & Hl & Hid).
  apply (fire_emptied cb _ _ st.2 Hreg).
  rewrite (processMessage_dispatch _ _ _ _ _ Hev Hty Hmodel). simpl.
  eexists. right. apply list_elem_of_fmap. exists x. split; [done|].
  apply loop_instanceIds_elem. right. simpl. eauto.
Qed.

(** C5. A listener registered by [once] for an event type on an instance
    with identity [x], under a callback that is not registered otherwise, is
    called at most once through any frames; and once a frame of that type
    that promotes an instance with identity [x] has been dispatched, no
    later frame calls it, and the listener table holds no [once] entry for
    [x] under that type. *)
Theorem once_listener_fires_at_most_once self reg type x cb frames :
  Forall (λ r, r_callback r ≠ cb) reg →
  let st := instanceOnce type x cb (self, reg) in
  timesCalled cb (deliverAll st frames).2 ≤ 1
  ∧ ∀ before msg later event props,
      frames = before ++ msg :: later →
      frameEvent msg = Some event →
      get event "type" = Some (JStr type) →
      eventModels self !! type = Some props →
      x ∈ promotedIds event props →
      timesCalled cb (deliverAll (deliverAll st (before ++ [msg])).1 later).2
      = 0
      ∧ ∀ l, l ∈ listenersOf (deliverAll st frames).1.1 type →
             l_id l = x → l_once l = false.
Proof.
  intros Hfresh st.
  assert (registrationsOf cb st.2 = 1) as Hone.
  { subst st. unfold instanceOnce, instanceRegister, emitterOnce,
      registrationsOf. simpl.
    rewrite List.filter_app, length_app. simpl. rewrite Nat.eqb_refl. simpl.
    clear -Hfresh. induction Hfresh as [|r reg Hr _ IH]; [done|]. simpl.
    by destruct (Nat.eqb_spec (r_callback r) cb). }
  assert (Forall (λ r, r_callback r = cb
                       → r_name r = scopedName type x ∧ r_once r = true)
            st.2) as Hreg.
  { subst st. unfold instanceOnce, instanceRegister, emitterOnce. simpl.
    apply Forall_app. split.
    - eapply Forall_impl; [exact Hfresh|]. naive_solver.
    - by repeat constructor. }
  assert (Forall (λ r, r_callback r = cb → r_once r = true) st.2) as Honce.
  { eapply Forall_impl; [exact Hreg|]. naive_solver. }
  assert (∃ l, l ∈ listenersOf st.1 type ∧ l_id l = x) as Hlistener.
  { subst st. unfold instanceOnce, instanceRegister, listenersOf. simpl.
    rewrite lookup_insert_eq. simpl.
    eexists. split; [apply elem_of_app; right; apply list_elem_of_here|].
    done. }
  assert (eventModels st.1 = eventModels self) as Hmodels by done.
  split.
  - pose proof (deliverAll_registrations cb frames st Honce). lia.
  - intros before msg later event props -> Hev Hty Hmodel Hx.
    set (st1 := (deliverAll st before).1).
    assert (registrationsOf cb (deliver st1 msg).1.2 = 0) as Hzero.
    { apply (deliver_takes_callback cb type x st1 msg event props);
        try done.
      - apply Forall_forall. intros r Hr%deliverAll_sub.
        by apply (proj1 (Forall_forall _ _) Hreg).
      - apply deliverAll_keeps_listener; [done|]. by intros _.
      - subst st1.
        by rewrite deliverAll_client, eventModels_afterFrames, Hmodels. }
    assert ((deliverAll st (before ++ [msg])).1 = (deliver st1 msg).1)
      as Hstep.
    { rewrite deliverAll_app. simpl. done. }
    split.
    + rewrite Hstep.
      assert (Forall (λ r, r_callback r = cb → r_once r = true)
                (deliver st1 msg).1.2) as Honce'.
      { apply Forall_forall. intros r Hr. simpl in Hr.
        apply fire_sub, deliverAll_sub in Hr.
        by apply (proj1 (Forall_forall _ _) Honce). }
      pose proof (deliverAll_registrations cb later (deliver st1 msg).1
                    Honce'). lia.
    + intros l. rewrite deliverAll_client. unfold afterFrames.
      rewrite foldl_app. simpl.
      apply (once_listener_removed_after_dispatch
               (afterFrames st.1 before) msg event type props x); try done.
      by rewrite eventModels_afterFrames, Hmodels.
Qed.

End ScopedListenerProperties.

(** * The properties at work on the fixture *)

Import Fixture.

(** No property promoted: the second argument is [undefined]. *)
Example replaced_carries_nothing :
  actions (processMessage bare
             (send (JObj [("type", JStr "ApplicationReplaced")])))
  = [Emit "ApplicationReplaced"
       (EventArgs (JObj [("type", JStr "ApplicationReplaced")]) RUndefined)].
Proof. vm_compute. reflexivity. Qed.

(** One property promoted: the instance itself, also on the scoped path. *)
Example dtmf_carries_the_channel :
  actions (processMessage
             (withListeners {[ "ChannelDtmfReceived" := [alwaysFor "c1"] ]})
             (send (dtmf "1" "c1")))
  = [Emit "ChannelDtmfReceived"
       (EventArgs (dtmf "1" "c1") (ROne (channelOf "c1")));
     Emit "ChannelDtmfReceived-c1"
       (EventArgs (dtmf "1" "c1") (ROne (channelOf "c1")))].
Proof. vm_compute. reflexivity. Qed.

(** Two properties promoted: a map by property name. *)
Example entered_carries_both :
  actions (processMessage bare (send (entered "b1" "c1")))
  = [Emit "ChannelEnteredBridge"
       (EventArgs (entered "b1" "c1")
          (RMany (list_to_map [("bridge", bridgeOf "b1");
                               ("channel", channelOf "c1")])))].
Proof. vm_compute. reflexivity. Qed.

(** The frame of [processMessage] on a frame that promotes nothing yet has a
    listener table: the table is left alone. *)
Example dtmf_without_channel_keeps_listeners :
  listenersOf
    (client (processMessage
               (withListeners {[ "ChannelDtmfReceived" := [onceFor "c1"] ]})
               (send (JObj [("type", JStr "ChannelDtmfReceived");
                            ("digit", JStr "1")]))))
    "ChannelDtmfReceived"
  = [onceFor "c1"].
Proof. vm_compute. reflexivity. Qed.

Lemma resources_argument_by_promotions_witness :
  frameEvent (send (entered "b1" "c1")) = Some (entered "b1" "c1")
  ∧ ∃ resources rest,
      actions (processMessage bare (send (entered "b1" "c1")))
      = Emit "ChannelEnteredBridge"
          (EventArgs (entered "b1" "c1") resources) :: rest
      ∧ ∃ byName, resources = RMany byName
          ∧ ∀ name instance,
              byName !! name = Some instance
              ↔ (name, instance) ∈ [("bridge", bridgeOf "b1");
                                    ("channel", channelOf "c1")].
Proof.
  split; [reflexivity|].
  assert (promotions (entered "b1" "c1")
            [{| p_name := "bridge"; p_dataType := "Bridge" |};
             {| p_name := "channel"; p_dataType := "Channel" |}]
          = [("bridge", bridgeOf "b1"); ("channel", channelOf "c1")]) as E.
  { vm_compute. reflexivity. }
  destruct (resources_argument_by_promotions bare
              (send (entered "b1" "c1")) (entered "b1" "c1")
              "ChannelEnteredBridge"
              [{| p_name := "bridge"; p_dataType := "Bridge" |};
               {| p_name := "channel"; p_dataType := "Channel" |}])
    as (resources & rest & Hactions & Hresources).
  - reflexivity.
  - reflexivity.
  - vm_compute. reflexivity.
  - apply NoDup_cons. split; [|apply NoDup_singleton].
    intros H%list_elem_of_singleton. discriminate H.
  - rewrite E in Hresources. exists resources, rest.
    split; [exact Hactions|exact Hresources].
Defined.

(** A merge of a bridge into itself promotes two instances with one
    identity: one scoped emission. *)
Example merged_self_emits_scoped_once :
  actions (processMessage
             (withListeners
                {[ "BridgeMerged" := [alwaysFor "b1"; onceFor "b1"] ]})
             (send (merged "b1" "b1")))
  = let resources := RMany (list_to_map [("bridge", bridgeOf "b1");
                                         ("bridge_from", bridgeOf "b1")]) in
    [Emit "BridgeMerged" (EventArgs (merged "b1" "b1") resources);
     Emit "BridgeMerged-b1" (EventArgs (merged "b1" "b1") resources)].
Proof. vm_compute. reflexivity. Qed.

Lemma scoped_delivery_at_most_once_witness :
  frameEvent (send (merged "b1" "b1")) = Some (merged "b1" "b1")
  ∧ get (merged "b1" "b1") "type" = Some (JStr "BridgeMerged")
  ∧ length (List.filter (emitsTo (scopedName "BridgeMerged" "b1"))
              (actions (processMessage
                          (withListeners
                             {[ "BridgeMerged" :=
                                  [alwaysFor "b1"; onceFor "b1"] ]})
                          (send (merged "b1" "b1"))))) ≤ 1.
Proof.
  split; [reflexivity|]. split; [reflexivity|].
  apply (scoped_delivery_at_most_once _ _ (merged "b1" "b1"));
    reflexivity.
Defined.

(** The scenario of the test suite: a [once] listener on a channel, and two
    events for that channel. The first leaves the table empty, the second is
    not routed to the scoped path. *)
Example once_listener_two_events :
  let self := withListeners {[ "ChannelDtmfReceived" := [onceFor "c1"] ]} in
  let first := processMessage self (send (dtmf "1" "c1")) in
  let second := processMessage (client first) (send (dtmf "2" "c1")) in
  List.filter (emitsTo "ChannelDtmfReceived-c1") (actions first)
    = [Emit "ChannelDtmfReceived-c1"
         (EventArgs (dtmf "1" "c1") (ROne (channelOf "c1")))]
  ∧ listenersOf (client first) "ChannelDtmfReceived" = []
  ∧ List.filter (emitsTo "ChannelDtmfReceived-c1") (actions second) = [].
Proof. vm_compute. repeat split. Qed.

(** C8, the claim as stated fails: neither a frame that is not JSON nor a
    frame of an unknown type is skipped; [processMessage] throws on both. *)
Lemma bad_frames_are_not_skipped :
  ¬ skipped bare garbage
  ∧ ¬ skipped bare (send (JObj [("type", JStr "Bogus")])).
Proof.
  split; unfold skipped; vm_compute; discriminate.
Qed.

Lemma bad_frame_throws_before_dispatch_witness :
  malformed garbage
  ∧ thrown (processMessage bare garbage) = Some SyntaxError
  ∧ actions (processMessage bare garbage) = []
  ∧ client (processMessage bare garbage) = bare
  ∧ ∀ next, processMessage (client (processMessage bare garbage)) next
            = processMessage bare next.
Proof.
  split; [reflexivity|].
  apply (bad_frame_throws_before_dispatch bare garbage).
  left. reflexivity.
Defined.

(** The same for a frame of an unknown type. *)
Example unknown_type_throws :
  processMessage bare (send (JObj [("type", JStr "Bogus")]))
  = throw bare TypeError.
Proof. reflexivity. Qed.

(** An empty message stands for the event [{}], which has no model. *)
Example empty_message_throws :
  processMessage bare {| text := ""; parsed := None |} = throw bare TypeError.
Proof. reflexivity. Qed.

(** The URL [start] opens. *)
Example start_opens_the_event_socket :
  (start bare "localhost:8088" "user" "secret"
     (AppList ["unittests"; "other"])).2
  = [NewWebSocket
       "ws://localhost:8088/ari/events?app=unittests,other&api_key=user:secret"].
Proof. reflexivity. Qed.

(** C2, the claim as stated fails: the close that follows an error on a
    client that was not stopped calls the backoff no more. *)
Lemma close_after_error_schedules_nothing :
  ¬ reconnectsOnEveryDrop (run connected [OnError "ECONNRESET"]).1 OnClose.
Proof.
  unfold reconnectsOnEveryDrop. intros H.
  apply H; reflexivity.
Qed.

Lemma open_clears_flag_and_drop_calls_backoff_witness :
  wsClosed connected.1 = false
  ∧ processingError connected.2 = false
  ∧ (handle connected OnClose).2 = [Retry true]
  ∧ (handle connected (OnError "ECONNRESET")).2 = [Retry true]
  ∧ retry connected.2 = backoff_create 100.
Proof.
  destruct (open_clears_flag_and_drop_calls_backoff bare "localhost:8088"
              "user" "secret" (AppName "unittests") [OnOpen])
    as (Hretry & _ & Herror & Hclose & _).
  split; [reflexivity|]. split; [reflexivity|].
  split; [exact (Hclose eq_refl eq_refl)|].
  split; [exact (Herror eq_refl "ECONNRESET")|exact Hretry].
Defined.

(** A backoff that has no retry left: the refusal is announced. *)
Example exhausted_backoff_emits_max_retries :
  (handle (bare, {| processingError := false; retry := (100%Z, 0);
                    wsUrl := "" |}) (OnError "ECONNREFUSED")).2
  = [Retry false; Emit "WebSocketMaxRetries" (ErrorArg (Some "ECONNREFUSED"))].
Proof. reflexivity. Qed.

(** C3, the claim as stated fails: the close that [stop] causes clears the
    mark, and a further close, with no [start] in between, calls the
    backoff. *)
Lemma second_close_after_stop_reconnects :
  ¬ quietAfterStop bare session [OnClose; OnClose].
Proof.
  unfold quietAfterStop. vm_compute. discriminate.
Qed.

Lemma stop_silences_until_first_close_witness :
  thrown (stop bare) = None
  ∧ retries (run (client (stop bare), session)
               ([OnError "ECONNRESET"; OnOpen] ++ [OnClose])).2 = []
  ∧ wsClosed (run (client (stop bare), session)
                ([OnError "ECONNRESET"; OnOpen] ++ [OnClose])).1.1 = false
  ∧ retries (handle connected OnClose).2 = [Retry true].
Proof.
  destruct (stop_silences_until_first_close bare session
              [OnError "ECONNRESET"; OnOpen])
    as (Hquiet & Hmark & Hclose).
  - reflexivity.
  - repeat (apply Forall_cons; split; [discriminate|]). apply Forall_nil_2.
  - split; [reflexivity|]. split; [exact Hquiet|]. split; [exact Hmark|].
    exact (Hclose connected eq_refl eq_refl).
Defined.

(** [stop] before any [start] finds no socket to close. *)
Example stop_without_socket_throws :
  stop (set_ws None bare) = throw (set_ws None bare) TypeError.
Proof. reflexivity. Qed.

Lemma error_then_close_reconnects_once_witness :
  wsClosed connected.1 = false
  ∧ length (retries (run connected [OnError "ECONNRESET"; OnClose]).2) ≤ 1
  ∧ processingError (handle connected (OnError "ECONNRESET")).1.2 = true
  ∧ retries (handle (handle connected (OnError "ECONNRESET")).1 OnClose).2
    = [].
Proof.
  destruct (error_then_close_reconnects_once connected "ECONNRESET")
    as (Hcount & Hflag & _).
  split; [reflexivity|]. split; [exact Hcount|].
  destruct (Hflag eq_refl) as (Hset & _ & Hskip).
  split; [exact Hset|exact Hskip].
Defined.

(** An error and the close after it, then the reconnected socket: one call
    of the backoff, and the flag is clear again. *)
Example error_close_open :
  retries (run connected [OnError "ECONNRESET"; OnClose; OnTimer; OnOpen]).2
  = [Retry true]
  ∧ processingError
      (run connected [OnError "ECONNRESET"; OnClose; OnTimer; OnOpen]).1.2
    = false.
Proof. split; reflexivity. Qed.

(** The fixture's helper and operation keep to the options they are
    handed. *)
Lemma fixture_swagger_writesOnlyTo resource operation :
  writesOnlyTo (swaggerOperation resource operation).
Proof.
  intros h v l _ Hv. simpl. destruct v; try reflexivity.
  apply lookup_insert_ne. simpl in Hv. congruence.
Defined.

Lemma fixture_parse_writesOnlyTo params :
  writesOnlyTo (λ h v, (parseBodyParams params h v).1)
  ∧ returnsOwnOrNew (parseBodyParams params).
Proof.
  split.
  - intros h v l _ Hv. simpl. destruct v; try reflexivity.
    apply lookup_insert_ne. simpl in Hv. congruence.
  - intros h v l _. simpl. destruct v; intros H; exact H.
Defined.

Lemma options_not_mutated_witness :
  target (first [VObject 0; VFunction 7]) = Some 0
  ∧ is_Some (subscribeHeap !! 0)
  ∧ c_heap (callSwagger subscribe subscribeHeap [VObject 0; VFunction 7]) !! 0
    = subscribeHeap !! 0.
Proof.
  split; [reflexivity|].
  assert (is_Some (subscribeHeap !! 0)) as Hlive.
  { eexists. vm_compute. reflexivity. }
  split; [exact Hlive|].
  exact (options_not_mutated subscribe subscribeHeap
           [VObject 0; VFunction 7] 0
           fixture_swagger_writesOnlyTo fixture_parse_writesOnlyTo
           eq_refl Hlive).
Defined.

Lemma error_message_is_response_body_witness :
  last [VObject 0; VFunction 7] = VFunction 7
  ∧ dataTruthy (DBuffer "Bridge not found") = true
  ∧ swaggerError
      (c_userCallback
         (callSwagger subscribe subscribeHeap [VObject 0; VFunction 7]))
      (ErrObject (Some (DBuffer "Bridge not found")))
    = {| calls := [{| u_callback := 7; u_err := EError "Bridge not found";
                      u_result := None |}];
         raised := None |}.
Proof.
  split; [reflexivity|]. split; [reflexivity|].
  apply (error_message_is_response_body subscribe subscribeHeap
           [VObject 0; VFunction 7] 7 (DBuffer "Bridge not found"));
    reflexivity.
Defined.

(** A failure without a body reaches the callback as swagger passed it. *)
Example error_without_body_is_passed_on :
  swaggerError (VFunction 7) (ErrObject None)
  = {| calls := [{| u_callback := 7; u_err := EPassed (ErrObject None);
                    u_result := None |}];
       raised := None |}.
Proof. reflexivity. Qed.

Lemma missing_callback_fails_only_on_error_witness :
  isFunction (last [VObject 0]) = false
  ∧ (∀ data,
       processResponse subscribe
         (c_userCallback (callSwagger subscribe subscribeHeap [VObject 0]))
         data
       = {| calls := []; raised := None |})
  ∧ (∀ err,
       swaggerError
         (c_userCallback (callSwagger subscribe subscribeHeap [VObject 0]))
         err
       = {| calls := []; raised := Some TypeError |}).
Proof.
  split; [reflexivity|].
  destruct (missing_callback_fails_only_on_error subscribe subscribeHeap
              [VObject 0] eq_refl) as (Hok & Herr & _ & _).
  split; [exact Hok|exact Herr].
Defined.

(** A call without any argument has no callback either. *)
Example no_arguments_no_callback :
  c_userCallback (callSwagger subscribe subscribeHeap []) = VUndefined.
Proof. reflexivity. Qed.

(** With a callback, a list response is delivered as instances. *)
Example list_response_is_typed :
  processResponse
    {| op_resource := "bridges"; op_name := "list";
       op_type := TName "List[Bridge]"; op_parameters := [] |}
    (VFunction 7)
    (send (JArr [JObj [("id", JStr "b1")]; JObj [("id", JStr "b2")]]))
  = {| calls := [{| u_callback := 7; u_err := ENull;
                    u_result := Some (Many [bridgeOf "b1"; bridgeOf "b2"]) |}];
       raised := None |}.
Proof. vm_compute. reflexivity. Qed.

(** The fixture's operation empties the options it is given, and these are
    not the caller's. *)
Example swagger_empties_the_copy :
  let call := callSwagger subscribe subscribeHeap [VObject 0; VFunction 7] in
  target (c_options call) ≠ Some 0
  ∧ (∀ l, target (c_options call) = Some l → c_heap call !! l = Some ∅)
  ∧ c_heap call !! 0 = subscribeHeap !! 0.
Proof.
  vm_compute. split; [discriminate|]. split; [|reflexivity].
  intros l [= <-]. reflexivity.
Qed.

(** ** The further properties on the fixture *)

Lemma scoped_emission_iff_promoted_and_listened_witness :
  eventModels dtmfListeners !! "ChannelDtmfReceived" = Some dtmfProperties
  ∧ ((∃ args, Emit (scopedName "ChannelDtmfReceived" "c1") args
              ∈ actions (processMessage dtmfListeners (send (dtmf "1" "c1"))))
     ↔ "c1" ∈ promotedIds (dtmf "1" "c1") dtmfProperties
       ∧ ∃ l, l ∈ listenersOf dtmfListeners "ChannelDtmfReceived"
              ∧ l_id l = "c1").
Proof.
  assert (eventModels dtmfListeners !! "ChannelDtmfReceived"
          = Some dtmfProperties) as Hmodel.
  { vm_compute. reflexivity. }
  split; [exact Hmodel|].
  exact (scoped_emission_iff_promoted_and_listened dtmfListeners
           (send (dtmf "1" "c1")) (dtmf "1" "c1") "ChannelDtmfReceived"
           dtmfProperties "c1" eq_refl eq_refl Hmodel).
Defined.

Lemma listeners_after_frame_witness :
  eventModels dtmfListeners !! "ChannelDtmfReceived" = Some dtmfProperties
  ∧ instanceListeners
      (client (processMessage dtmfListeners (send (dtmf "1" "c1"))))
      !! "ChannelDtmfReceived"
    = Some [alwaysFor "c1"].
Proof.
  assert (eventModels dtmfListeners !! "ChannelDtmfReceived"
          = Some dtmfProperties) as Hmodel.
  { vm_compute. reflexivity. }
  split; [exact Hmodel|].
  rewrite (listeners_after_frame dtmfListeners (send (dtmf "1" "c1"))
             (dtmf "1" "c1") "ChannelDtmfReceived" dtmfProperties
             "ChannelDtmfReceived" eq_refl eq_refl Hmodel).
  vm_compute. reflexivity.
Defined.

Lemma scoped_emissions_share_arguments_witness :
  eventModels dtmfListeners !! "ChannelDtmfReceived" = Some dtmfProperties
  ∧ ∃ resources rest,
      actions (processMessage dtmfListeners (send (dtmf "1" "c1")))
      = Emit "ChannelDtmfReceived" (EventArgs (dtmf "1" "c1") resources)
        :: rest
      ∧ Forall (λ a, ∃ x, x ∈ promotedIds (dtmf "1" "c1") dtmfProperties
                       ∧ a = Emit (scopedName "ChannelDtmfReceived" x)
                               (EventArgs (dtmf "1" "c1") resources)) rest.
Proof.
  assert (eventModels dtmfListeners !! "ChannelDtmfReceived"
          = Some dtmfProperties) as Hmodel.
  { vm_compute. reflexivity. }
  split; [exact Hmodel|].
  exact (scoped_emissions_share_arguments dtmfListeners
           (send (dtmf "1" "c1")) (dtmf "1" "c1") "ChannelDtmfReceived"
           dtmfProperties eq_refl eq_refl Hmodel).
Defined.

(** With two promoted properties the scoped listener of the channel gets
    the map of both, as the global listeners do. *)
Example scoped_listener_gets_the_map :
  actions (processMessage
             (withListeners {[ "ChannelEnteredBridge" := [alwaysFor "c1"] ]})
             (send (entered "b1" "c1")))
  = let resources := RMany (list_to_map [("bridge", bridgeOf "b1");
                                         ("channel", channelOf "c1")]) in
    [Emit "ChannelEnteredBridge" (EventArgs (entered "b1" "c1") resources);
     Emit "ChannelEnteredBridge-c1" (EventArgs (entered "b1" "c1") resources)].
Proof. vm_compute. reflexivity. Qed.

Lemma frame_without_listener_list_witness :
  instanceListeners bare !! "ChannelDtmfReceived" = None
  ∧ client (processMessage bare (send (dtmf "1" "c1"))) = bare
  ∧ ∃ resources,
      actions (processMessage bare (send (dtmf "1" "c1")))
      = [Emit "ChannelDtmfReceived" (EventArgs (dtmf "1" "c1") resources)].
Proof.
  assert (instanceListeners bare !! "ChannelDtmfReceived" = None) as Hnone.
  { vm_compute. reflexivity. }
  assert (eventModels bare !! "ChannelDtmfReceived" = Some dtmfProperties)
    as Hmodel.
  { vm_compute. reflexivity. }
  split; [exact Hnone|].
  exact (frame_without_listener_list bare (send (dtmf "1" "c1"))
           (dtmf "1" "c1") "ChannelDtmfReceived" dtmfProperties
           eq_refl eq_refl Hmodel Hnone).
Defined.

Lemma lasting_listener_survives_witness :
  alwaysFor "c1" ∈ listenersOf dtmfListeners "ChannelDtmfReceived"
  ∧ alwaysFor "c1"
    ∈ listenersOf
        (afterFrames dtmfListeners
           [send (dtmf "1" "c1"); garbage; send (dtmf "2" "c1")])
        "ChannelDtmfReceived".
Proof.
  assert (alwaysFor "c1" ∈ listenersOf dtmfListeners "ChannelDtmfReceived")
    as Hin.
  { vm_compute. apply list_elem_of_further, list_elem_of_here. }
  split; [exact Hin|].
  exact (lasting_listener_survives
           [send (dtmf "1" "c1"); garbage; send (dtmf "2" "c1")]
           dtmfListeners "ChannelDtmfReceived" (alwaysFor "c1") Hin eq_refl).
Defined.

Lemma start_keeps_stale_mark_witness :
  wsClosed (set_wsClosed true bare) = true
  ∧ retries (run (start (set_wsClosed true bare) "localhost:8088" "user"
                    "secret" (AppName "unittests")).1
               ([OnOpen] ++ [OnClose])).2 = []
  ∧ wsClosed (run (start (set_wsClosed true bare) "localhost:8088" "user"
                     "secret" (AppName "unittests")).1
                ([OnOpen] ++ [OnClose])).1.1 = false.
Proof.
  split; [reflexivity|].
  apply (start_keeps_stale_mark (set_wsClosed true bare) "localhost:8088"
           "user" "secret" (AppName "unittests") [OnOpen]).
  - reflexivity.
  - apply Forall_cons. split; [discriminate|apply Forall_nil_2].
Defined.

Lemma every_error_calls_backoff_witness :
  wsClosed connected.1 = false
  ∧ length (retries (run connected
                       (OnError <$> ["ECONNRESET"; "ETIMEDOUT"])).2) = 2.
Proof.
  split; [reflexivity|].
  exact (every_error_calls_backoff ["ECONNRESET"; "ETIMEDOUT"] connected
           eq_refl).
Defined.

Lemma close_after_open_reconnects_witness :
  wsClosed (run connected [OnError "ECONNRESET"]).1.1 = false
  ∧ ∃ scheduled,
      retries (run (run connected [OnError "ECONNRESET"]).1
                 (OnOpen :: (OnMessage <$> [send (dtmf "1" "c1")])
                            ++ [OnClose])).2
      = [Retry scheduled].
Proof.
  split; [reflexivity|].
  exact (close_after_open_reconnects (run connected [OnError "ECONNRESET"]).1
           [send (dtmf "1" "c1")] eq_refl).
Defined.

Lemma callSwagger_keeps_every_object_witness :
  is_Some (subscribeHeap !! 0)
  ∧ c_heap (callSwagger subscribe subscribeHeap [VFunction 7]) !! 0
    = subscribeHeap !! 0.
Proof.
  assert (is_Some (subscribeHeap !! 0)) as Hlive.
  { eexists. vm_compute. reflexivity. }
  split; [exact Hlive|].
  exact (callSwagger_keeps_every_object subscribe subscribeHeap
           [VFunction 7] 0
           fixture_swagger_writesOnlyTo fixture_parse_writesOnlyTo Hlive).
Defined.

(** A body that is not JSON, of an operation with a type: the success
    handler raises and the callback hears nothing. *)
Example unparsable_body_raises :
  processResponse bridgesList (VFunction 7) garbage
  = {| calls := []; raised := Some SyntaxError |}.
Proof. vm_compute. reflexivity. Qed.

Lemma list_response_gives_instances_witness :
  fixtureListType "List[Bridge]" = Some "Bridge"
  ∧ processResponse bridgesList (VFunction 7)
      (send (JArr [JObj [("id", JStr "b1")]; JObj [("id", JStr "b2")]]))
    = {| calls := [{| u_callback := 7; u_err := ENull;
                      u_result := Some (Many [bridgeOf "b1"; bridgeOf "b2"]) |}];
         raised := None |}.
Proof.
  assert (fixtureListType "List[Bridge]" = Some "Bridge") as Hlist.
  { vm_compute. reflexivity. }
  split; [exact Hlist|].
  apply (list_response_gives_instances bridgesList 7
           (send (JArr [JObj [("id", JStr "b1")]; JObj [("id", JStr "b2")]]))
           "List[Bridge]" "Bridge" bridgeFactory
           [JObj [("id", JStr "b1")]; JObj [("id", JStr "b2")]]).
  - reflexivity.
  - exact Hlist.
  - apply list_elem_of_further, list_elem_of_here.
  - vm_compute. reflexivity.
  - reflexivity.
  - reflexivity.
Defined.

Lemma optionless_call_sends_empty_options_witness :
  isAbsent (first [VFunction 7]) || isFunction (first [VFunction 7])
    || isArray (first [VFunction 7]) = true
  ∧ c_heap (callSwagger subscribe subscribeHeap [VFunction 7])
    = swaggerOperation "applications" "subscribe"
        (<[fresh (dom subscribeHeap) := ∅]> subscribeHeap)
        (VObject (fresh (dom subscribeHeap)))
  ∧ c_options (callSwagger subscribe subscribeHeap [VFunction 7])
    = c_options (callSwagger subscribe subscribeHeap [])
  ∧ c_heap (callSwagger subscribe subscribeHeap [VFunction 7])
    = c_heap (callSwagger subscribe subscribeHeap []).
Proof.
  split; [reflexivity|].
  destruct (optionless_call_sends_empty_options subscribe subscribeHeap
              [VFunction 7] eq_refl) as (_ & _ & Hempty & Hoptions & Hheap).
  split; [exact Hempty|]. split; [exact Hoptions|exact Hheap].
Defined.

Lemma fixture_bridges_not_a_type : "bridges" ∉ knownTypes.
Proof.
  intros H. repeat (apply elem_of_cons in H as [H|H]; [discriminate H|]).
  by apply not_elem_of_nil in H.
Defined.

Lemma loaded_api_exposes_operations_witness :
  fixtureApis !! "bridges" = Some bridgesOperations
  ∧ exposed (a_members (swaggerLoaded true true fixtureApis ∅))
      "bridges" "list"
    = Some bridgesList.
Proof.
  assert (fixtureApis !! "bridges" = Some bridgesOperations) as Hres.
  { vm_compute. reflexivity. }
  assert (bridgesOperations !! "list"
          = Some {| spec_type := TName "List[Bridge]";
                    spec_parameters := [] |}) as Hop.
  { vm_compute. reflexivity. }
  split; [exact Hres|].
  exact (loaded_api_exposes_operations true fixtureApis ∅ "bridges"
           bridgesOperations "list" _ Hres Hop fixture_bridges_not_a_type).
Defined.

Lemma loaded_api_has_creators_witness :
  "Channel" ∈ knownTypes
  ∧ a_members (swaggerLoaded true true fixtureApis ∅) !! "Channel"
    = Some (MCreator "Channel").
Proof.
  assert ("Channel" ∈ knownTypes) as Hin by apply list_elem_of_here.
  split; [exact Hin|].
  exact (loaded_api_has_creators true fixtureApis ∅ "Channel" Hin).
Defined.

(** A resource that is named like a known type is hidden by the creator. *)
Example creator_hides_resource :
  a_members (swaggerLoaded true true {[ "Bridge" := bridgesOperations ]} ∅)
    !! "Bridge"
  = Some (MCreator "Bridge").
Proof. vm_compute. reflexivity. Qed.

Lemma loaded_api_attaches_nothing_else_witness :
  fixtureApis !! "sounds" = None
  ∧ a_members (swaggerLoaded true true fixtureApis ∅) !! "sounds" = None.
Proof.
  assert (fixtureApis !! "sounds" = None) as Hnone.
  { vm_compute. reflexivity. }
  split; [exact Hnone|].
  rewrite (proj1 (loaded_api_attaches_nothing_else true fixtureApis ∅)
             "sounds" Hnone).
  - reflexivity.
  - intros H. repeat (apply elem_of_cons in H as [H|H]; [discriminate H|]).
    by apply not_elem_of_nil in H.
Defined.

Lemma connect_without_callback_throws_witness :
  isFunction VUndefined = false
  ∧ k_thrown (connectClient VUndefined (Failed "ECONNREFUSED"))
    = Some "No callback provided to connect()"
  ∧ k_called (connectClient VUndefined (Failed "ECONNREFUSED")) = None.
Proof.
  split; [reflexivity|].
  destruct (connect_without_callback_throws VUndefined
              (Failed "ECONNREFUSED") eq_refl) as (Hthrown & Hcalled & _).
  - intros apis. discriminate.
  - split; [exact Hthrown|exact Hcalled].
Defined.

(** A lasting listener and a [once] listener on the same channel, and two
    events for it: the first emission under the scoped name calls both, in
    the order they were registered, the second calls the lasting one
    alone. *)
Example once_listener_beside_lasting :
  let st := instanceOnce "ChannelDtmfReceived" "c1" 1 lastingOnC1 in
  (deliverAll st [send (dtmf "1" "c1"); send (dtmf "2" "c1")]).2 = [2; 1; 2]
  ∧ List.filter (emitsTo "ChannelDtmfReceived-c1")
      (actions (processMessage (deliver st (send (dtmf "1" "c1"))).1.1
                  (send (dtmf "2" "c1"))))
    ≠ [].
Proof. vm_compute. split; [reflexivity|discriminate]. Qed.

Lemma once_listener_fires_at_most_once_witness :
  Forall (λ r, r_callback r ≠ 1) lastingOnC1.2
  ∧ let st := instanceOnce "ChannelDtmfReceived" "c1" 1
                (lastingOnC1.1, lastingOnC1.2) in
    timesCalled 1
      (deliverAll st [send (dtmf "1" "c1"); send (dtmf "2" "c1")]).2 ≤ 1
    ∧ timesCalled 1
        (deliverAll (deliverAll st ([] ++ [send (dtmf "1" "c1")])).1
           [send (dtmf "2" "c1")]).2 = 0.
Proof.
  assert (Forall (λ r, r_callback r ≠ 1) lastingOnC1.2) as Hfresh.
  { apply Forall_cons. split; [discriminate|apply Forall_nil_2]. }
  assert (eventModels lastingOnC1.1 !! "ChannelDtmfReceived"
          = Some dtmfProperties) as Hmodel.
  { vm_compute. reflexivity. }
  assert ("c1" ∈ promotedIds (dtmf "1" "c1") dtmfProperties) as Hin.
  { vm_compute. apply list_elem_of_here. }
  split; [exact Hfresh|].
  destruct (once_listener_fires_at_most_once lastingOnC1.1 lastingOnC1.2
              "ChannelDtmfReceived" "c1" 1
              [send (dtmf "1" "c1"); send (dtmf "2" "c1")] Hfresh)
    as [Hcount Hlater].
  split; [exact Hcount|].
  exact (proj1 (Hlater [] (send (dtmf "1" "c1")) [send (dtmf "2" "c1")]
                  (dtmf "1" "c1") dtmfProperties
                  eq_refl eq_refl eq_refl Hmodel Hin)).
Defined.
